(** * Turtle command server: a model of the Flask handlers and their properties

    The development embeds the request handlers of
    [Assets/FlaskServer/TurtleController.py] and of
    [Assets/FlaskServer/TurtleControllerWebSocket.py].  The module-level
    globals of the Python program ([commands], [turtle_status],
    [known_blocks], [current_command]) form a record that every handler
    threads through; an uncaught Python exception is an explicit outcome
    that keeps whatever the handler had already written.

    Modelling conventions:
    - request bodies are parsed JSON values; JSON numbers are integers
      (Python's unbounded [int]), floating point payloads are left out;
    - a Python [str] is a [string], one [ascii] per character;
    - a response is the status code with the value handed to [jsonify];
      how Flask writes that value out as text is not modelled;
    - [print] writes to the console only and is not part of the state. *)

From Stdlib Require Import Ascii.
From stdpp Require Import gmap strings list fin_maps pretty.

Set Warnings "-clear-no-such-hyp".


(** ** JSON values, as [request.get_json()] hands them to a handler *)

#[warnings="-register-all"]
Inductive json : Type :=
  | JNull
  | JBool (b : bool)
  | JNum (n : Z)
  | JStr (s : string)
  | JArr (xs : list json)
  | JObj (kvs : list (string * json)).

(** Python exceptions the handlers can run into. *)
Inductive pyexc : Type :=
  | KeyError
  | TypeError
  | AttributeError
  | IndexError.

Inductive result (A : Type) : Type :=
  | Ok (a : A)
  | Raise (e : pyexc).
Global Arguments Ok {A} a.
Global Arguments Raise {A} e.

(** [bool(v)]: what [if v:] tests. *)
Definition py_truthy (v : json) : bool :=
  match v with
  | JNull => false
  | JBool b => b
  | JNum n => negb (n =? 0)%Z
  | JStr s => match s with "" => false | _ => true end
  | JArr xs => match xs with [] => false | _ => true end
  | JObj kvs => match kvs with [] => false | _ => true end
  end.

(** *** JSON objects: the key/value pairs of a parsed payload, in order.
    Keys of a parsed object are pairwise distinct. *)

Fixpoint obj_lookup (k : string) (kvs : list (string * json)) : option json :=
  match kvs with
  | [] => None
  | (k', v) :: rest => if decide (k' = k) then Some v else obj_lookup k rest
  end.

(** [data.get(k, dflt)]; only a dict has a [get] method. *)
Definition py_get (data : json) (k : string) (dflt : json) : result json :=
  match data with
  | JObj kvs => Ok (default dflt (obj_lookup k kvs))
  | _ => Raise AttributeError
  end.

(** [data[k]] for a string subscript [k]. *)
Definition py_getitem (data : json) (k : string) : result json :=
  match data with
  | JObj kvs =>
      match obj_lookup k kvs with
      | Some v => Ok v
      | None => Raise KeyError
      end
  | _ => Raise TypeError
  end.

Fixpoint is_substring (p s : string) : bool :=
  String.prefix p s ||
  match s with
  | "" => false
  | String _ s' => is_substring p s'
  end.

(** [k in data] for a string [k]: key membership on a dict, element
    membership on a list, substring test on a string; other values are not
    containers. *)
Definition py_contains (k : string) (data : json) : result bool :=
  match data with
  | JObj kvs => Ok (bool_decide (is_Some (obj_lookup k kvs)))
  | JArr xs =>
      Ok (existsb (λ v, match v with
                        | JStr s => bool_decide (s = k)
                        | _ => false
                        end) xs)
  | JStr s => Ok (is_substring k s)
  | _ => Raise TypeError
  end.

Fixpoint chars (s : string) : list json :=
  match s with
  | "" => []
  | String c s' => JStr (String c "") :: chars s'
  end.

(** The elements [for v in data] or [list.extend(data)] run through. *)
Definition py_iter (data : json) : result (list json) :=
  match data with
  | JArr xs => Ok xs
  | JStr s => Ok (chars s)
  | JObj kvs => Ok (JStr <$> kvs.*1)
  | _ => Raise TypeError
  end.

(** *** Dictionary keys.  Only scalars are hashable, and [True == 1],
    [False == 0] as keys. *)

Inductive pykey : Type :=
  | KNone
  | KInt (n : Z)
  | KStr (s : string).

Global Instance pykey_eq_dec : EqDecision pykey.
Proof. solve_decision. Defined.

Global Instance pykey_countable : Countable pykey.
Proof.
  refine (inj_countable'
    (λ k, match k with
          | KNone => inl ()
          | KInt n => inr (inl n)
          | KStr s => inr (inr s)
          end)
    (λ x, match x with
          | inl _ => KNone
          | inr (inl n) => KInt n
          | inr (inr s) => KStr s
          end) _).
  by intros [].
Defined.

Definition to_key (v : json) : result pykey :=
  match v with
  | JNull => Ok KNone
  | JBool b => Ok (KInt (if b then 1 else 0))
  | JNum n => Ok (KInt n)
  | JStr s => Ok (KStr s)
  | JArr _ | JObj _ => Raise TypeError
  end.

(** *** A Python [dict]: a finite map that also remembers the order in
    which its keys were first inserted ([values()] lists in that order). *)

Record pydict (K : Type) `{Countable K} (V : Type) : Type := PyDict {
  d_items : gmap K V;
  d_order : list K;
}.
Global Arguments PyDict {K _ _ V} d_items d_order.
Global Arguments d_items {K _ _ V} _.
Global Arguments d_order {K _ _ V} _.

Section dict_ops.
Context {K : Type} `{Countable K} {V : Type}.

Definition dict_empty : pydict K V := PyDict ∅ [].

Definition dict_get (k : K) (d : pydict K V) : option V := d_items d !! k.

Definition dict_contains (k : K) (d : pydict K V) : bool :=
  bool_decide (is_Some (d_items d !! k)).

(** [d[k] = v]: a new key goes to the end, a known key keeps its place. *)
Definition dict_setitem (k : K) (v : V) (d : pydict K V) : pydict K V :=
  PyDict (<[k := v]> (d_items d))
         (if dict_contains k d then d_order d else d_order d ++ [k]).

(** [del d[k]] for a key that is present. *)
Definition dict_delitem (k : K) (d : pydict K V) : pydict K V :=
  PyDict (delete k (d_items d)) (filter (λ k', k' ≠ k) (d_order d)).

Definition dict_items (d : pydict K V) : list (K * V) :=
  omap (λ k, (k,.) <$> d_items d !! k) (d_order d).

Definition dict_values (d : pydict K V) : list V :=
  omap (λ k, d_items d !! k) (d_order d).

Definition dict_len (d : pydict K V) : nat := size (d_items d).
End dict_ops.

(** ** Responses *)

Record response : Type := Response {
  code : Z;
  body : json;
}.

(** [jsonify(...)] alone answers with status 200. *)
Definition jsonify (v : json) : response := Response 200 v.

(** ** The durable block store [blocks.json] *)

Inductive file : Type :=
  | Missing                 (* [os.path.exists] is false *)
  | Corrupt                 (* [json.load] raises *)
  | Stored (data : json).

(** ** Server state: the module-level globals *)

Record server : Type := Server {
  current_command : json;
  commands : gmap pykey (list json);
  turtle_status : pydict pykey json;
  known_blocks : pydict string json;
  blocks_json : file;
  (* only the WebSocket server has the two below *)
  connected_clients : pydict string json;
  emitted : list (string * json);
}.

Definition initial (f : file) : server :=
  Server JNull ∅ dict_empty dict_empty f dict_empty [].

Definition set_current_command (v : json) (st : server) : server :=
  Server v (commands st) (turtle_status st) (known_blocks st)
         (blocks_json st) (connected_clients st) (emitted st).

Definition set_commands (f : gmap pykey (list json) → gmap pykey (list json))
    (st : server) : server :=
  Server (current_command st) (f (commands st)) (turtle_status st)
         (known_blocks st) (blocks_json st) (connected_clients st) (emitted st).

Definition set_turtle_status
    (f : pydict pykey json → pydict pykey json) (st : server) : server :=
  Server (current_command st) (commands st) (f (turtle_status st))
         (known_blocks st) (blocks_json st) (connected_clients st) (emitted st).

Definition set_known_blocks
    (f : pydict string json → pydict string json) (st : server) : server :=
  Server (current_command st) (commands st) (turtle_status st)
         (f (known_blocks st)) (blocks_json st) (connected_clients st)
         (emitted st).

Definition set_blocks_json (f : file) (st : server) : server :=
  Server (current_command st) (commands st) (turtle_status st)
         (known_blocks st) f (connected_clients st) (emitted st).

Definition set_connected_clients
    (f : pydict string json → pydict string json) (st : server) : server :=
  Server (current_command st) (commands st) (turtle_status st)
         (known_blocks st) (blocks_json st) (f (connected_clients st))
         (emitted st).

(** [socketio.emit(event, payload)]: the event is handed to the socket
    layer; the model records what was handed over, in order. *)
Definition add_emitted (event : string) (payload : json) (st : server)
    : server :=
  Server (current_command st) (commands st) (turtle_status st)
         (known_blocks st) (blocks_json st) (connected_clients st)
         (emitted st ++ [(event, payload)]).

(** ** Handlers as state transformers that may raise *)

Definition rbind {A B} (r : result A) (f : A → result B) : result B :=
  match r with
  | Ok a => f a
  | Raise e => Raise e
  end.

Declare Scope result_scope.
Delimit Scope result_scope with result.
Notation "x ← r ; k" := (rbind r (λ x, k))
  (at level 20, r at level 100, k at level 200, only parsing) : result_scope.

Definition handler (A : Type) : Type := server → server * result A.

Definition ret {A} (a : A) : handler A := λ st, (st, Ok a).

(** Sequencing: an exception ends the handler and keeps the state reached. *)
Definition bind {A B} (m : handler A) (f : A → handler B) : handler B :=
  λ st, match m st with
        | (st', Ok a) => f a st'
        | (st', Raise e) => (st', Raise e)
        end.

Declare Scope handler_scope.
Delimit Scope handler_scope with handler.
Bind Scope handler_scope with handler.
Notation "x ← m ; k" := (bind m (λ x, k))
  (at level 20, m at level 100, k at level 200, only parsing) : handler_scope.
Notation "m ;; k" := (bind m (λ _, k))
  (at level 100, k at level 200, right associativity, only parsing)
  : handler_scope.
Local Open Scope handler_scope.

Definition lift {A} (r : result A) : handler A := λ st, (st, r).
Definition gets {A} (f : server → A) : handler A := λ st, (st, Ok (f st)).
Definition modify (f : server → server) : handler unit := λ st, (f st, Ok ()).

(** Python's short-circuit [and] / [or] over conditions that read the state. *)
Definition and_then (a b : handler bool) : handler bool :=
  x ← a; if x then b else ret false.
Definition or_else (a b : handler bool) : handler bool :=
  x ← a; if x then ret true else b.
Infix "&&&" := and_then (at level 40, left associativity).
Infix "|||" := or_else (at level 50, left associativity).

(** *** The [commands] defaultdict *)

(** [label in commands]: a membership test never creates an entry. *)
Definition commands_contains (label : json) : handler bool :=
  k ← lift (to_key label);
  gets (λ st, bool_decide (is_Some (commands st !! k))).

(** [commands[label]]: a missing key is first bound to a fresh empty list
    ([defaultdict(list)]). *)
Definition commands_getitem (label : json) : handler (list json) :=
  k ← lift (to_key label);
  λ st, match commands st !! k with
        | Some q => (st, Ok q)
        | None => (set_commands <[k := []]> st, Ok [])
        end.

(** [commands[label].extend(cmds)] *)
Definition commands_extend (label cmds : json) : handler unit :=
  q ← commands_getitem label;
  xs ← lift (py_iter cmds);
  k ← lift (to_key label);
  modify (set_commands <[k := q ++ xs]>).

(** [commands[label].append(cmd)] *)
Definition commands_append (label cmd : json) : handler unit :=
  q ← commands_getitem label;
  k ← lift (to_key label);
  modify (set_commands <[k := q ++ [cmd]]>).

(** [commands[label].pop(0)] *)
Definition commands_pop0 (label : json) : handler json :=
  q ← commands_getitem label;
  k ← lift (to_key label);
  match q with
  | [] => lift (Raise IndexError)
  | next_cmd :: rest => modify (set_commands <[k := rest]>);; ret next_cmd
  end.

(** A query-string argument: [request.args.get("label")] is a string or
    [None]. *)
Definition arg (a : option string) : json := from_option JStr JNull a.

(** ** Formatting values into strings *)

(** How Python prints a list or a dict inside an f-string (the [repr] of
    its elements) is left open: the handlers only ever compare such
    strings, and every property below holds whatever the rendering is. *)
Class PyStr : Type := container_str : json → string.

(** [str(v)], which is what [f"{v}"] inserts. *)
Definition py_str `{PyStr} (v : json) : string :=
  match v with
  | JNull => "None"
  | JBool true => "True"
  | JBool false => "False"
  | JNum n => pretty n
  | JStr s => s
  | JArr _ | JObj _ => container_str v
  end.

(** [f"{block['x']},{block['y']},{block['z']}"] *)
Definition block_key `{PyStr} (block : json) : result string :=
  (x ← py_getitem block "x";
   y ← py_getitem block "y";
   z ← py_getitem block "z";
   Ok (py_str x +:+ "," +:+ py_str y +:+ "," +:+ py_str z))%result.

(** ** TurtleController.py *)

Module TurtleController.
Section handlers.
Context `{PyStr}.

Fixpoint load_loop (data : list json) : handler unit :=
  match data with
  | [] => ret ()
  | block :: rest =>
      key ← lift (block_key block);
      modify (set_known_blocks (dict_setitem key block));;
      load_loop rest
  end.

(** The [try] block catches every exception of the parse and of the
    loop; blocks stored before the exception stay. *)
Definition load_blocks : handler unit := λ st,
  match blocks_json st with
  | Missing | Corrupt => (st, Ok ())
  | Stored data =>
      let body := (blocks ← lift (py_iter data); load_loop blocks) in
      ((body st).1, Ok ())
  end.

Definition save_blocks : handler unit :=
  modify (λ st,
    set_blocks_json (Stored (JArr (dict_values (known_blocks st)))) st).

(** The body of [/] is plain text. *)
Definition index : handler response :=
  ret (Response 200 (JStr "Turtle Command Server laeuft!")).

Definition set_command (data : json) : handler response :=
  if negb (py_truthy data) then
    ret (Response 400 (JObj [("status", JStr "error");
                             ("message", JStr "Keine Daten erhalten")]))
  else
    modify (set_current_command data);;
    ret (Response 200 (JObj [("status", JStr "ok");
                             ("message", JStr "Befehl gespeichert")])).

Definition queue_commands (data : json) : handler response :=
  label ← lift (py_get data "label" JNull);
  cmds ← lift (py_get data "commands" (JArr []));
  if py_truthy label then
    commands_extend label cmds;;
    ret (Response 200 (JObj [("status", JStr "ok");
                             ("message", JStr "Kommandos gequeued")]))
  else
    ret (Response 400 (JObj [("status", JStr "error");
                             ("message", JStr "Kein Label angegeben")])).

Definition get_all_commands (label : option string) : handler response :=
  let label := arg label in
  found ← ret (py_truthy label) &&& commands_contains label;
  if found then
    q ← commands_getitem label;
    ret (jsonify (JObj [("commands", JArr q)]))
  else
    ret (jsonify (JObj [("commands", JArr [])])).

Definition get_next_command (label : option string) : handler response :=
  let label := arg label in
  pending ← ret (py_truthy label) &&& commands_contains label
             &&& (q ← commands_getitem label; ret (py_truthy (JArr q)));
  if pending then
    next_cmd ← commands_pop0 label;
    ret (jsonify (JObj [("command", next_cmd)]))
  else
    ret (jsonify (JObj [("command", JNull)])).

Definition receive_status (data : json) : handler response :=
  invalid ← ret (negb (py_truthy data))
             ||| (c ← lift (py_contains "label" data); ret (negb c));
  if invalid then
    ret (Response 400 (JObj [("status", JStr "error");
                             ("message", JStr "Ungueltiger Status")]))
  else
    label ← lift (py_getitem data "label");
    k ← lift (to_key label);
    modify (set_turtle_status (dict_setitem k data));;
    ret (Response 200 (JObj [("status", JStr "ok")])).

Definition get_status (label : string) : handler response :=
  status ← gets (λ st,
    default JNull (dict_get (KStr label) (turtle_status st)));
  if py_truthy status then
    ret (jsonify status)
  else
    ret (Response 404 (JObj [("status", JStr "error");
                             ("message", JStr "Nicht gefunden")])).

Definition get_all_status : handler response :=
  statuses ← gets (λ st, dict_values (turtle_status st));
  ret (jsonify (JArr statuses)).

Fixpoint scan_loop (data : list json) (new_blocks : nat) : handler nat :=
  match data with
  | [] => ret new_blocks
  | block :: rest =>
      key ← lift (block_key block);
      known ← gets (λ st, dict_contains key (known_blocks st));
      if negb known then
        modify (set_known_blocks (dict_setitem key block));;
        scan_loop rest (S new_blocks)
      else
        scan_loop rest new_blocks
  end.

Definition receive_scan (data : json) : handler response :=
  match data with
  | JArr blocks =>
      new_blocks ← scan_loop blocks 0;
      (if bool_decide (0 < new_blocks) then save_blocks else ret ());;
      ret (jsonify (JObj [("status", JStr "ok");
                          ("new_blocks", JNum (Z.of_nat new_blocks))]))
  | _ =>
      ret (Response 400 (JObj [("status", JStr "error");
                               ("message", JStr "Ungueltige Daten")]))
  end.

Definition get_scan : handler response :=
  blocks ← gets (λ st, dict_values (known_blocks st));
  ret (jsonify (JArr blocks)).

(** The routes of the application.  [GET /status/all] is served by
    [get_all_status], every other [GET /status/<label>] by [get_status]. *)
Inductive request : Type :=
  | Index
  | SetCommand (data : json)
  | QueueCommands (data : json)
  | GetAllCommands (label : option string)
  | GetNextCommand (label : option string)
  | ReceiveStatus (data : json)
  | GetStatus (label : string)
  | GetAllStatus
  | ReceiveScan (data : json)
  | GetScan.

Definition handle (r : request) : handler response :=
  match r with
  | Index => index
  | SetCommand data => set_command data
  | QueueCommands data => queue_commands data
  | GetAllCommands label => get_all_commands label
  | GetNextCommand label => get_next_command label
  | ReceiveStatus data => receive_status data
  | GetStatus label => get_status label
  | GetAllStatus => get_all_status
  | ReceiveScan data => receive_scan data
  | GetScan => get_scan
  end.

(** [__main__]: the globals are fresh, [load_blocks()] runs once, then
    the application serves requests. *)
Definition startup (f : file) : server := (load_blocks (initial f)).1.
End handlers.
End TurtleController.

(** ** TurtleControllerWebSocket.py *)

(** [socketio.emit(event, payload, broadcast=True)] hands the keyword
    [broadcast] on to the installed python-socketio server.  Older
    releases of that package swallow keywords they do not know and send
    the event; newer ones raise [TypeError] for an unexpected keyword and
    send nothing.  The repository pins no release, so which of the two
    happens is left open. *)
Class SocketLayer : Type := emit_takes_broadcast : bool.

Module TurtleControllerWebSocket.
Section handlers.
Context `{PyStr} {sio : SocketLayer}.

Definition emit (event : string) (payload : json) : handler unit :=
  modify (add_emitted event payload).

(** [socketio.emit(event, payload, broadcast=True)] *)
Definition emit_broadcast (event : string) (payload : json) : handler unit :=
  if emit_takes_broadcast then emit event payload
  else lift (Raise TypeError).

Definition load_blocks : handler unit := TurtleController.load_blocks.
Definition save_blocks : handler unit := TurtleController.save_blocks.

(** *** WebSocket events.  [sid] is [request.sid], [now] is
    [datetime.now().isoformat()]; an event handler's return value is the
    acknowledgement ([None] is [JNull]).  [emit] records broadcasts and the
    reply of [handle_register] to its sender alike. *)

Definition handle_connect (sid now : string) : handler json :=
  modify (set_connected_clients
    (dict_setitem sid (JObj [("connected_at", JStr now);
                             ("type", JStr "unknown")])));;
  ret JNull.

Definition handle_disconnect (sid : string) : handler json :=
  present ← gets (λ st, dict_contains sid (connected_clients st));
  (if present then modify (set_connected_clients (dict_delitem sid))
   else ret ());;
  ret JNull.

Definition handle_register (sid now : string) (data : json) : handler json :=
  client_type ← lift (py_get data "type" (JStr "unknown"));
  client_id ← lift (py_get data "id" (JStr "unknown"));
  modify (set_connected_clients
    (dict_setitem sid (JObj [("type", client_type);
                             ("id", client_id);
                             ("connected_at", JStr now)])));;
  emit "registered" (JObj [("status", JStr "ok"); ("sid", JStr sid)]);;
  ret JNull.

Definition handle_turtle_status (data : json) : handler json :=
  invalid ← ret (negb (py_truthy data))
             ||| (c ← lift (py_contains "label" data); ret (negb c));
  if invalid then
    ret JNull
  else
    label ← lift (py_getitem data "label");
    k ← lift (to_key label);
    modify (set_turtle_status (dict_setitem k data));;
    emit_broadcast "status_update" data;;
    ret JNull.

Definition handle_command (data : json) : handler json :=
  label ← lift (py_get data "label" JNull);
  command ← lift (py_get data "command" JNull);
  if py_truthy label && py_truthy command then
    commands_append label command;;
    emit ("command_" +:+ py_str label) (JObj [("command", command)]);;
    ret (JObj [("status", JStr "ok")])
  else
    ret (JObj [("status", JStr "error");
               ("message", JStr "Label oder Command fehlt")]).

(** *** REST routes *)

Definition index : handler response :=
  ret (Response 200 (JStr "Turtle Command Server mit WebSocket laeuft!")).

Definition set_command : json → handler response :=
  TurtleController.set_command.

Definition queue_commands (data : json) : handler response :=
  label ← lift (py_get data "label" JNull);
  cmds ← lift (py_get data "commands" (JArr []));
  if py_truthy label then
    commands_extend label cmds;;
    emit ("commands_" +:+ py_str label) (JObj [("commands", cmds)]);;
    ret (Response 200 (JObj [("status", JStr "ok");
                             ("message", JStr "Kommandos gequeued")]))
  else
    ret (Response 400 (JObj [("status", JStr "error");
                             ("message", JStr "Kein Label angegeben")])).

Definition get_all_commands : option string → handler response :=
  TurtleController.get_all_commands.

Definition get_next_command : option string → handler response :=
  TurtleController.get_next_command.

Definition receive_status (data : json) : handler response :=
  invalid ← ret (negb (py_truthy data))
             ||| (c ← lift (py_contains "label" data); ret (negb c));
  if invalid then
    ret (Response 400 (JObj [("status", JStr "error");
                             ("message", JStr "Ungueltiger Status")]))
  else
    label ← lift (py_getitem data "label");
    k ← lift (to_key label);
    modify (set_turtle_status (dict_setitem k data));;
    emit "status_update" data;;
    ret (Response 200 (JObj [("status", JStr "ok")])).

Definition get_status : string → handler response :=
  TurtleController.get_status.

Definition get_all_status : handler response :=
  TurtleController.get_all_status.

Definition receive_scan (data : json) : handler response :=
  match data with
  | JArr blocks =>
      new_blocks ← TurtleController.scan_loop blocks 0;
      (if bool_decide (0 < new_blocks) then
         save_blocks;;
         total ← gets (λ st, dict_len (known_blocks st));
         emit "blocks_update"
              (JObj [("new_blocks", JNum (Z.of_nat new_blocks));
                     ("total", JNum (Z.of_nat total))])
       else ret ());;
      ret (jsonify (JObj [("status", JStr "ok");
                          ("new_blocks", JNum (Z.of_nat new_blocks))]))
  | _ =>
      ret (Response 400 (JObj [("status", JStr "error");
                               ("message", JStr "Ungueltige Daten")]))
  end.

Definition get_scan : handler response := TurtleController.get_scan.

Definition get_connected_clients : handler response :=
  clients ← gets (λ st, dict_items (connected_clients st));
  ret (jsonify (JObj clients)).

(** What the WebSocket server takes in: socket events and REST routes. *)
Inductive request : Type :=
  | Connect (sid now : string)
  | Disconnect (sid : string)
  | Register (sid now : string) (data : json)
  | TurtleStatus (data : json)
  | Command (data : json)
  | Index
  | SetCommand (data : json)
  | QueueCommands (data : json)
  | GetAllCommands (label : option string)
  | GetNextCommand (label : option string)
  | ReceiveStatus (data : json)
  | GetStatus (label : string)
  | GetAllStatus
  | ReceiveScan (data : json)
  | GetScan
  | GetConnectedClients.

(** An event handler gives an acknowledgement, a route a response. *)
Inductive answer : Type :=
  | Acknowledged (a : json)
  | Responded (r : response).

Definition acknowledge (m : handler json) : handler answer :=
  a ← m; ret (Acknowledged a).
Definition respond (m : handler response) : handler answer :=
  r ← m; ret (Responded r).

Definition handle (r : request) : handler answer :=
  match r with
  | Connect sid now => acknowledge (handle_connect sid now)
  | Disconnect sid => acknowledge (handle_disconnect sid)
  | Register sid now data => acknowledge (handle_register sid now data)
  | TurtleStatus data => acknowledge (handle_turtle_status data)
  | Command data => acknowledge (handle_command data)
  | Index => respond index
  | SetCommand data => respond (set_command data)
  | QueueCommands data => respond (queue_commands data)
  | GetAllCommands label => respond (get_all_commands label)
  | GetNextCommand label => respond (get_next_command label)
  | ReceiveStatus data => respond (receive_status data)
  | GetStatus label => respond (get_status label)
  | GetAllStatus => respond get_all_status
  | ReceiveScan data => respond (receive_scan data)
  | GetScan => respond get_scan
  | GetConnectedClients => respond get_connected_clients
  end.

(** [__main__]: [load_blocks()] runs once, then [socketio.run]. *)
Definition startup (f : file) : server := (load_blocks (initial f)).1.
End handlers.
End TurtleControllerWebSocket.

(** * Specification vocabulary *)

(** The queue of an agent as an observer sees it: empty when the label has
    no entry in [commands]. *)
Definition queue_of (label : string) (st : server) : list json :=
  default [] (commands st !! KStr label).

(** The body of [POST /commands] for a label and a command sequence. *)
Definition enqueue_request (label : string) (cmds : list json) : json :=
  JObj [("label", JStr label); ("commands", JArr cmds)].

(** The answers the handlers give on their main paths. *)
Definition queued : response :=
  Response 200 (JObj [("status", JStr "ok");
                      ("message", JStr "Kommandos gequeued")]).

Definition no_command : response := jsonify (JObj [("command", JNull)]).

Definition status_ok : response := Response 200 (JObj [("status", JStr "ok")]).

Definition invalid_status : response :=
  Response 400 (JObj [("status", JStr "error");
                      ("message", JStr "Ungueltiger Status")]).

Definition scan_ok (n : nat) : response :=
  jsonify (JObj [("status", JStr "ok"); ("new_blocks", JNum (Z.of_nat n))]).

(** *** Command queues *)

(** What two dequeues answer after [enqueue(A, [c1, c2])]: [c1], then [c2]. *)
Definition fifo_pair (st : server) (A : string) (c1 c2 : json) : Prop :=
  let st1 :=
    (TurtleController.queue_commands (enqueue_request A [c1; c2]) st).1 in
  let d1 := TurtleController.get_next_command (Some A) st1 in
  let d2 := TurtleController.get_next_command (Some A) d1.1 in
  d1.2 = Ok (jsonify (JObj [("command", c1)]))
  ∧ d2.2 = Ok (jsonify (JObj [("command", c2)])).

(** The outcome [out] of an enqueue put [cmds] at the tail of the queue of
    [label], which exists afterwards, touched no other queue and was
    acknowledged. *)
Definition enqueued (st : server) (label : string) (cmds : list json)
    (out : server * result response) : Prop :=
  out.2 = Ok queued
  ∧ queue_of label out.1 = queue_of label st ++ cmds
  ∧ is_Some (commands out.1 !! KStr label)
  ∧ ∀ k, k ≠ KStr label → commands out.1 !! k = commands st !! k.

(** The caller can read the number of appended commands off the response. *)
Definition returns_count_appended : Prop :=
  ∃ count_of : response → nat,
    ∀ st label cmds, label ≠ "" →
      ∃ r, (TurtleController.queue_commands
              (enqueue_request label cmds) st).2 = Ok r
           ∧ count_of r = length cmds.

(** The enqueue of [cmds] under [label] is accepted and queued. *)
Definition label_accepted (st : server) (label : string) (cmds : list json)
    : Prop :=
  let out := TurtleController.queue_commands (enqueue_request label cmds) st in
  out.2 = Ok queued ∧ queue_of label out.1 = queue_of label st ++ cmds.

(** *** Status snapshots *)

(** A payload without an agent identifier: empty, or without a ["label"]. *)
Definition lacks_label (data : json) : Prop :=
  py_truthy data = false ∨ py_contains "label" data = Ok false.

(** The payload is a JSON object with a ["label"] field. *)
Definition has_label_field (data : json) : bool :=
  match data with
  | JObj kvs => bool_decide (is_Some (obj_lookup "label" kvs))
  | _ => false
  end.

(** How a caller is told that its payload was not valid: a route answers
    with status 400; an event handler raises, or acknowledges with an
    error object as [handle_command] does. *)
Definition route_refuses (r : result response) : Prop :=
  ∃ body, r = Ok (Response 400 body).

Definition event_refuses (r : result json) : Prop :=
  (∃ e, r = Raise e)
  ∨ ∃ kvs, r = Ok (JObj kvs) ∧ obj_lookup "status" kvs = Some (JStr "error").

(** The upsert rule read literally, at one payload, for the route and for
    the event: with a ["label"] field the payload is stored and the route
    answers ok; without one the caller is told so and nothing changes. *)
Definition upsert_as_stated {sio : SocketLayer} (data : json) (st : server)
    : Prop :=
  let route := TurtleController.receive_status data st in
  let event := TurtleControllerWebSocket.handle_turtle_status data st in
  if has_label_field data then
    route.2 = Ok status_ok
    ∧ (∃ k, dict_get k (turtle_status route.1) = Some data)
    ∧ (∃ k, dict_get k (turtle_status event.1) = Some data)
  else
    route_refuses route.2 ∧ route.1 = st
    ∧ event_refuses event.2 ∧ event.1 = st.

(** *** Blocks *)

(** The integer coordinate triple of a block record, if it has one. *)
Definition coordinate (block : json) : option (Z * Z * Z) :=
  match block with
  | JObj kvs =>
      match obj_lookup "x" kvs, obj_lookup "y" kvs, obj_lookup "z" kvs with
      | Some (JNum x), Some (JNum y), Some (JNum z) => Some (x, y, z)
      | _, _, _ => None
      end
  | _ => None
  end.

Definition coordinate_key (c : Z * Z * Z) : string :=
  pretty c.1.1 +:+ "," +:+ pretty c.1.2 +:+ "," +:+ pretty c.2.

Fixpoint has_comma (s : string) : bool :=
  match s with
  | "" => false
  | String c s' => bool_decide (c = ","%char) || has_comma s'
  end.

Definition known_keys (st : server) : gset string :=
  dom (d_items (known_blocks st)).

(** A block of the batch whose coordinate key the index does not hold yet. *)
Definition unknown_before `{PyStr} (st : server) (block : json) : bool :=
  match block_key block with
  | Ok key => negb (dict_contains key (known_blocks st))
  | Raise _ => false
  end.

(** [reportBlocks] answers with the number of blocks of the batch whose
    key was absent before the call. *)
Definition counts_unknown_blocks `{PyStr} (st : server) (batch : list json)
    : Prop :=
  (TurtleController.receive_scan (JArr batch) st).2
  = Ok (scan_ok (length (filter (λ b, unknown_before st b) batch))).

(** The insertion order lists exactly the keys of the map, each once. *)
Definition dict_wf {K V} `{Countable K} (d : pydict K V) : Prop :=
  NoDup (d_order d) ∧ ∀ k, k ∈ d_order d ↔ is_Some (d_items d !! k).

(** Every block is stored under the key of its own coordinates. *)
Definition key_coherent `{PyStr} (kb : pydict string json) : Prop :=
  ∀ k b, dict_get k kb = Some b → block_key b = Ok k.

Definition block_index_inv `{PyStr} (st : server) : Prop :=
  dict_wf (known_blocks st) ∧ key_coherent (known_blocks st).

(** States the running server can be in: after start-up, then after each
    request served. *)
Inductive reachable `{PyStr} : server → Prop :=
  | reachable_startup f : reachable (TurtleController.startup f)
  | reachable_handle st r :
      reachable st → reachable (TurtleController.handle r st).1.

(** The state after serving a list of requests in order. *)
Definition serve `{PyStr} (rs : list TurtleController.request) (st : server)
    : server :=
  foldl (λ st r, (TurtleController.handle r st).1) st rs.

(** A handler that leaves the block index alone. *)
Definition keeps_blocks {A} (m : handler A) : Prop :=
  ∀ st, known_blocks (m st).1 = known_blocks st.

(** *** Data of the worked examples *)

Definition stone : json :=
  JObj [("x", JNum 1); ("y", JNum 2); ("z", JNum 3); ("type", JStr "stone")].

Definition t1_status : list (string * json) :=
  [("label", JStr "t1"); ("fuelLevel", JNum 80); ("maxFuel", JNum 100)].

(** The examples format integers and strings only; the rendering of
    containers they are run with is never consulted. *)
Definition example_str : PyStr := λ _, "".

(** The two socket layers: one that swallows the [broadcast] keyword, one
    that raises on it. *)
Definition lenient_socket : SocketLayer := true.
Definition strict_socket : SocketLayer := false.

(** *** Further vocabulary: runs of dequeues, the second server, frames *)

(** The answer of [GET /command] that hands out [c]. *)
Definition command_answer (c : json) : result response :=
  Ok (jsonify (JObj [("command", c)])).

(** [n] successive [GET /command?label=...] calls: the state reached and
    the answers in the order given. *)
Fixpoint dequeues (n : nat) (label : string) (st : server)
    : server * list (result response) :=
  match n with
  | 0 => (st, [])
  | S n =>
      let d := TurtleController.get_next_command (Some label) st in
      let ds := dequeues n label d.1 in
      (ds.1, d.2 :: ds.2)
  end.

(** Every stored snapshot is a non-empty value filed under the key of its
    own ["label"], and the cache lists each id once. *)
Definition status_inv (st : server) : Prop :=
  dict_wf (turtle_status st)
  ∧ ∀ k v, dict_get k (turtle_status st) = Some v →
      py_truthy v = true
      ∧ ∃ label, py_getitem v "label" = Ok label ∧ to_key label = Ok k.

(** States the WebSocket server can be in. *)
Inductive ws_reachable `{PyStr} {sio : SocketLayer} : server → Prop :=
  | ws_reachable_startup f :
      ws_reachable (TurtleControllerWebSocket.startup f)
  | ws_reachable_handle st r :
      ws_reachable st →
      ws_reachable (TurtleControllerWebSocket.handle r st).1.

Definition ws_serve `{PyStr} {sio : SocketLayer}
    (rs : list TurtleControllerWebSocket.request)
    (st : server) : server :=
  foldl (λ st r, (TurtleControllerWebSocket.handle r st).1) st rs.

(** A handler that leaves one component [proj] of the state alone. *)
Definition keeps {X A} (proj : server → X) (m : handler A) : Prop :=
  ∀ st, proj (m st).1 = proj st.

(** A handler that neither reads nor writes [current_command]. *)
Definition ignores_command {A} (m : handler A) : Prop :=
  ∀ v st, m (set_current_command v st)
          = (set_current_command v (m st).1, (m st).2).

(** The answer of [GET /status/<label>] for an unknown label. *)
Definition not_found : response :=
  Response 404 (JObj [("status", JStr "error");
                      ("message", JStr "Nicht gefunden")]).

(** The handler ran to its end and answered with status 200. *)
Definition accepted (r : result response) : bool :=
  match r with
  | Ok resp => bool_decide (code resp = 200%Z)
  | Raise _ => false
  end.

(** The event the WebSocket server broadcasts after a report with [n] new
    blocks that left [total] blocks in the index. *)
Definition blocks_update (n total : nat) : string * json :=
  ("blocks_update", JObj [("new_blocks", JNum (Z.of_nat n));
                          ("total", JNum (Z.of_nat total))]).

(** * Properties *)

(** ** Running the handlers symbolically *)

Local Arguments py_truthy : simpl never.

Ltac run :=
  repeat progress
    (unfold bind, ret, lift, gets, modify, and_then, or_else; simpl).

Lemma str_truthy (l : string) : l ≠ "" → py_truthy (JStr l) = true.
Proof. by destruct l. Qed.

(** ** Command queues *)

Lemma set_commands_twice f g st :
  set_commands f (set_commands g st) = set_commands (f ∘ g) st.
Proof. by destruct st. Qed.

Lemma commands_extend_str (l : string) (cmds : list json) st :
  commands_extend (JStr l) (JArr cmds) st
  = (set_commands <[KStr l := queue_of l st ++ cmds]> st, Ok ()).
Proof.
  unfold commands_extend, commands_getitem, queue_of. run.
  destruct (commands st !! KStr l) as [q|] eqn:Hq; simpl; [done|].
  rewrite set_commands_twice. f_equal. destruct st; unfold set_commands; simpl.
  f_equal. apply insert_insert_eq.
Qed.

Lemma queue_commands_accepts (l : string) (cmds : list json) st :
  l ≠ "" →
  TurtleController.queue_commands (enqueue_request l cmds) st
  = (set_commands <[KStr l := queue_of l st ++ cmds]> st, Ok queued).
Proof.
  intros Hl. unfold TurtleController.queue_commands, enqueue_request.
  unfold bind at 1 2. simpl. rewrite (str_truthy l Hl).
  unfold bind. by rewrite commands_extend_str.
Qed.

Lemma get_next_command_head (l : string) c rest st :
  l ≠ "" → commands st !! KStr l = Some (c :: rest) →
  TurtleController.get_next_command (Some l) st
  = (set_commands <[KStr l := rest]> st, Ok (jsonify (JObj [("command", c)]))).
Proof.
  intros Hl Hq. unfold TurtleController.get_next_command, commands_pop0,
    commands_contains, commands_getitem. run.
  rewrite (str_truthy l Hl), Hq. simpl.
  rewrite Hq. simpl. by rewrite Hq.
Qed.

Lemma get_next_command_none (label : option string) st :
  match label with
  | Some l => queue_of l st = []
  | None => True
  end →
  TurtleController.get_next_command label st = (st, Ok no_command).
Proof.
  unfold TurtleController.get_next_command, commands_pop0,
    commands_contains, commands_getitem, queue_of. run.
  destruct label as [l|]; simpl; [|done].
  destruct (py_truthy (JStr l)); [|done]. simpl.
  destruct (commands st !! KStr l) as [q|] eqn:Hq; simpl.
  - intros ->. by rewrite Hq.
  - done.
Qed.

Lemma ws_queue_commands_accepts `{PyStr} (l : string) (cmds : list json) st :
  l ≠ "" →
  TurtleControllerWebSocket.queue_commands (enqueue_request l cmds) st
  = (add_emitted ("commands_" +:+ l) (JObj [("commands", JArr cmds)])
       (set_commands <[KStr l := queue_of l st ++ cmds]> st), Ok queued).
Proof.
  intros Hl. unfold TurtleControllerWebSocket.queue_commands, enqueue_request.
  unfold bind at 1 2. simpl. rewrite (str_truthy l Hl).
  unfold bind at 1. by rewrite commands_extend_str.
Qed.

Lemma commands_append_str (l : string) (cmd : json) st :
  commands_append (JStr l) cmd st
  = (set_commands <[KStr l := queue_of l st ++ [cmd]]> st, Ok ()).
Proof.
  unfold commands_append, commands_getitem, queue_of. run.
  destruct (commands st !! KStr l) as [q|] eqn:Hq; simpl; [done|].
  rewrite set_commands_twice. f_equal. destruct st; unfold set_commands; simpl.
  f_equal. apply insert_insert_eq.
Qed.

Lemma handle_command_accepts `{PyStr} (l : string) (cmd : json) st :
  l ≠ "" → py_truthy cmd = true →
  TurtleControllerWebSocket.handle_command
    (JObj [("label", JStr l); ("command", cmd)]) st
  = (add_emitted ("command_" +:+ l) (JObj [("command", cmd)])
       (set_commands <[KStr l := queue_of l st ++ [cmd]]> st),
     Ok (JObj [("status", JStr "ok")])).
Proof.
  intros Hl Hc. unfold TurtleControllerWebSocket.handle_command.
  unfold bind at 1 2. simpl. rewrite (str_truthy l Hl), Hc. simpl.
  unfold bind at 1. by rewrite commands_append_str.
Qed.

Lemma queue_of_set_commands_eq l q st :
  queue_of l (set_commands <[KStr l := q]> st) = q.
Proof. unfold queue_of. simpl. by rewrite lookup_insert_eq. Qed.

Lemma get_all_commands_unknown (label : option string) st :
  match label with
  | Some l => commands st !! KStr l = None
  | None => True
  end →
  TurtleController.get_all_commands label st
  = (st, Ok (jsonify (JObj [("commands", JArr [])]))).
Proof.
  unfold TurtleController.get_all_commands, commands_contains. run.
  destruct label as [l|]; simpl; [|done].
  destruct (py_truthy (JStr l)); [|done]. simpl. by intros ->.
Qed.

(** The subscript, unlike the membership test, does create the entry. *)
Lemma commands_getitem_creates (l : string) st :
  commands st !! KStr l = None →
  commands (commands_getitem (JStr l) st).1 !! KStr l = Some [].
Proof.
  intros Hq. unfold commands_getitem. run. rewrite Hq. simpl.
  apply lookup_insert_eq.
Qed.

(** ** Python dictionaries *)

Lemma dict_get_setitem_eq {K V} `{Countable K} (k : K) (v : V) d :
  dict_get k (dict_setitem k v d) = Some v.
Proof. apply lookup_insert_eq. Qed.

Lemma dict_get_setitem_ne {K V} `{Countable K} (k k' : K) (v : V) d :
  k ≠ k' → dict_get k' (dict_setitem k v d) = dict_get k' d.
Proof. intros. by apply lookup_insert_ne. Qed.

(** ** Status cache *)

Lemma obj_lookup_nonempty k kvs v :
  obj_lookup k kvs = Some v → py_truthy (JObj kvs) = true.
Proof. by destruct kvs. Qed.

Lemma receive_status_stores (id : string) kvs st :
  obj_lookup "label" kvs = Some (JStr id) →
  TurtleController.receive_status (JObj kvs) st
  = (set_turtle_status (dict_setitem (KStr id) (JObj kvs)) st, Ok status_ok).
Proof.
  intros Hl. unfold TurtleController.receive_status. run.
  rewrite (obj_lookup_nonempty _ _ _ Hl), Hl. simpl.
  by rewrite ?Hl.
Qed.

Lemma ws_receive_status_stores (id : string) kvs st :
  obj_lookup "label" kvs = Some (JStr id) →
  TurtleControllerWebSocket.receive_status (JObj kvs) st
  = (add_emitted "status_update" (JObj kvs)
       (set_turtle_status (dict_setitem (KStr id) (JObj kvs)) st), Ok status_ok).
Proof.
  intros Hl. unfold TurtleControllerWebSocket.receive_status,
    TurtleControllerWebSocket.emit. run.
  rewrite (obj_lookup_nonempty _ _ _ Hl), Hl. simpl.
  by rewrite ?Hl.
Qed.

Lemma handle_turtle_status_stores {sio : SocketLayer} (id : string) kvs st :
  obj_lookup "label" kvs = Some (JStr id) →
  let stored := set_turtle_status (dict_setitem (KStr id) (JObj kvs)) st in
  TurtleControllerWebSocket.handle_turtle_status (JObj kvs) st
  = if emit_takes_broadcast
    then (add_emitted "status_update" (JObj kvs) stored, Ok JNull)
    else (stored, Raise TypeError).
Proof.
  intros Hl. unfold TurtleControllerWebSocket.handle_turtle_status,
    TurtleControllerWebSocket.emit_broadcast,
    TurtleControllerWebSocket.emit. run.
  rewrite (obj_lookup_nonempty _ _ _ Hl), Hl. simpl.
  rewrite ?Hl. by destruct emit_takes_broadcast.
Qed.

Lemma handle_turtle_status_cache {sio : SocketLayer} (id : string) kvs st :
  obj_lookup "label" kvs = Some (JStr id) →
  turtle_status
    (TurtleControllerWebSocket.handle_turtle_status (JObj kvs) st).1
  = dict_setitem (KStr id) (JObj kvs) (turtle_status st).
Proof.
  intros Hl. rewrite (handle_turtle_status_stores id) by done.
  by destruct emit_takes_broadcast.
Qed.

Lemma receive_status_rejects data st :
  lacks_label data →
  TurtleController.receive_status data st = (st, Ok invalid_status).
Proof.
  intros [Hd|Hd]; unfold TurtleController.receive_status; run; rewrite Hd.
  - done.
  - by destruct (py_truthy data).
Qed.

Lemma ws_receive_status_rejects data st :
  lacks_label data →
  TurtleControllerWebSocket.receive_status data st = (st, Ok invalid_status).
Proof.
  intros [Hd|Hd]; unfold TurtleControllerWebSocket.receive_status; run;
    rewrite Hd.
  - done.
  - by destruct (py_truthy data).
Qed.

Lemma handle_turtle_status_rejects {sio : SocketLayer} data st :
  lacks_label data →
  TurtleControllerWebSocket.handle_turtle_status data st = (st, Ok JNull).
Proof.
  intros [Hd|Hd]; unfold TurtleControllerWebSocket.handle_turtle_status; run;
    rewrite Hd.
  - done.
  - by destruct (py_truthy data).
Qed.

Lemma get_status_found (id : string) v st :
  dict_get (KStr id) (turtle_status st) = Some v → py_truthy v = true →
  TurtleController.get_status id st = (st, Ok (jsonify v)).
Proof.
  intros Hv Ht. unfold TurtleController.get_status. run.
  by rewrite Hv; simpl; rewrite Ht.
Qed.

(** ** Coordinate keys: injective on integer triples *)

Lemma block_key_coordinate `{PyStr} block c :
  coordinate block = Some c → block_key block = Ok (coordinate_key c).
Proof.
  destruct block as [| | | |?|kvs]; try done. simpl.
  unfold block_key, py_getitem, rbind, coordinate_key.
  destruct (obj_lookup "x" kvs) as [[]|]; try done.
  destruct (obj_lookup "y" kvs) as [[]|]; try done.
  destruct (obj_lookup "z" kvs) as [[]|]; try done.
  by intros [= <-].
Qed.

Lemma has_comma_app s1 s2 :
  has_comma (s1 +:+ s2) = has_comma s1 || has_comma s2.
Proof.
  induction s1 as [|c s1 IH]; simpl; [done|]. by rewrite IH, orb_assoc.
Qed.

Lemma pretty_N_char_no_comma x : pretty_N_char x ≠ ","%char.
Proof. unfold pretty_N_char. by repeat case_match. Qed.

Lemma pretty_N_go_no_comma x s :
  has_comma s = false → has_comma (pretty_N_go x s) = false.
Proof.
  revert s. induction (N.lt_wf_0 x) as [x _ IH]; intros s Hs.
  assert (x = 0 ∨ 0 < x)%N as [->|?] by lia.
  - by rewrite pretty_N_go_0.
  - rewrite pretty_N_go_step by done. apply IH.
    { by apply N.div_lt. }
    simpl. rewrite Hs, orb_false_r.
    apply bool_decide_eq_false, pretty_N_char_no_comma.
Qed.

Lemma pretty_N_no_comma (x : N) : has_comma (pretty x) = false.
Proof.
  unfold pretty, pretty_N. case_decide; [done|].
  by apply pretty_N_go_no_comma.
Qed.

Lemma pretty_Z_no_comma (x : Z) : has_comma (pretty x) = false.
Proof.
  destruct x as [|p|p]; unfold pretty, pretty_Z; [done|..].
  - apply pretty_N_no_comma.
  - rewrite has_comma_app. simpl. apply pretty_N_no_comma.
Qed.

(** A comma-free field followed by a comma is read back unambiguously. *)
Lemma comma_split a a' r r' :
  has_comma a = false → has_comma a' = false →
  a +:+ "," +:+ r = a' +:+ "," +:+ r' → a = a' ∧ r = r'.
Proof.
  revert a'. induction a as [|c a IH]; intros [|c' a']; simpl.
  - intros _ _ Heq. by simplify_eq/=.
  - intros _ Ha' Heq. simplify_eq/=.
  - intros Ha _ Heq. simplify_eq/=.
  - intros [_ Ha]%orb_false_elim [_ Ha']%orb_false_elim Heq.
    injection Heq as -> Heq.
    by destruct (IH a' Ha Ha' Heq) as [-> ->].
Qed.

Global Instance coordinate_key_inj : Inj (=) (=) coordinate_key.
Proof.
  intros [[x y] z] [[x' y'] z']. unfold coordinate_key. simpl. intros Heq.
  apply comma_split in Heq as [Hx Heq]; [|apply pretty_Z_no_comma..].
  apply comma_split in Heq as [Hy Hz]; [|apply pretty_Z_no_comma..].
  by simplify_eq.
Qed.

(** ** The scan loop *)

Lemma set_known_blocks_twice f g st :
  set_known_blocks f (set_known_blocks g st) = set_known_blocks (f ∘ g) st.
Proof. by destruct st. Qed.

Lemma set_known_blocks_same st :
  set_known_blocks (λ _, known_blocks st) st = st.
Proof. by destruct st. Qed.

Lemma dict_contains_dom {K V} `{Countable K} (k : K) (d : pydict K V) :
  dict_contains k d = true ↔ k ∈ dom (d_items d).
Proof. unfold dict_contains. by rewrite bool_decide_eq_true, elem_of_dom. Qed.

Lemma dict_contains_not_dom {K V} `{Countable K} (k : K) (d : pydict K V) :
  dict_contains k d = false ↔ k ∉ dom (d_items d).
Proof. unfold dict_contains. by rewrite bool_decide_eq_false, elem_of_dom. Qed.

Lemma size_fresh_key (k : string) (X D : gset string) :
  k ∉ D → size (({[k]} ∪ X) ∖ D) = S (size (X ∖ ({[k]} ∪ D))).
Proof.
  intros Hk.
  assert (({[k]} ∪ X) ∖ D = {[k]} ∪ X ∖ ({[k]} ∪ D)) as ->.
  { apply set_eq. intros x. destruct (decide (x = k)); set_solver. }
  rewrite size_union by set_solver. by rewrite size_singleton.
Qed.

Lemma difference_known_key (k : string) (X D : gset string) :
  k ∈ D → ({[k]} ∪ X) ∖ D = X ∖ D.
Proof. set_solver. Qed.

Section scan.
Context `{PyStr}.

Lemma scan_loop_cons block rest n key st :
  block_key block = Ok key →
  TurtleController.scan_loop (block :: rest) n st
  = if dict_contains key (known_blocks st)
    then TurtleController.scan_loop rest n st
    else TurtleController.scan_loop rest (S n)
           (set_known_blocks (dict_setitem key block) st).
Proof.
  intros Hk. simpl. unfold bind at 1, lift. rewrite Hk.
  unfold bind at 1, gets. by destruct (dict_contains _ _).
Qed.

Lemma scan_loop_raise block rest n e st :
  block_key block = Raise e →
  TurtleController.scan_loop (block :: rest) n st = (st, Raise e).
Proof. intros Hk. simpl. unfold bind at 1, lift. by rewrite Hk. Qed.

(** A batch of known coordinates is a no-op. *)
Lemma scan_loop_known batch keys n st :
  Forall2 (λ b k, block_key b = Ok k) batch keys →
  (∀ k, k ∈ keys → k ∈ known_keys st) →
  TurtleController.scan_loop batch n st = (st, Ok n).
Proof.
  induction 1 as [|b k batch keys Hk _ IH]; intros Hknown; [done|].
  rewrite (scan_loop_cons _ _ _ _ _ Hk).
  assert (dict_contains k (known_blocks st) = true) as ->.
  { apply dict_contains_dom, Hknown. left. }
  apply IH. intros k' ?. apply Hknown. by right.
Qed.

(** The loop counts each unknown key once and makes every key known. *)
Lemma scan_loop_count batch keys n st :
  Forall2 (λ b k, block_key b = Ok k) batch keys →
  ∃ kb',
    TurtleController.scan_loop batch n st
    = (set_known_blocks (λ _, kb') st,
       Ok (n + size (list_to_set keys ∖ known_keys st)))
    ∧ dom (d_items kb') = known_keys st ∪ list_to_set keys.
Proof.
  intros Hkeys. revert n st.
  induction Hkeys as [|b k batch keys Hk _ IH]; intros n st.
  - exists (known_blocks st). simpl. rewrite set_known_blocks_same.
    split; [|unfold known_keys; set_solver].
    unfold ret. do 2 f_equal.
    assert (∅ ∖ known_keys st = (∅ : gset string)) as ->
      by set_solver.
    rewrite size_empty. lia.
  - rewrite (scan_loop_cons _ _ _ _ _ Hk).
    destruct (dict_contains k (known_blocks st)) eqn:Hc.
    + apply dict_contains_dom in Hc. destruct (IH n st) as (kb' & -> & Hdom).
      exists kb'. split.
      * do 3 f_equal. rewrite list_to_set_cons.
        by rewrite difference_known_key.
      * unfold known_keys in *. set_solver.
    + apply dict_contains_not_dom in Hc.
      destruct (IH (S n) (set_known_blocks (dict_setitem k b) st))
        as (kb' & -> & Hdom).
      exists kb'. rewrite set_known_blocks_twice. split.
      * do 2 f_equal. rewrite list_to_set_cons, size_fresh_key by done.
        unfold known_keys. simpl. rewrite dom_insert_L. lia.
      * unfold known_keys in *. simpl in *. rewrite Hdom, dom_insert_L.
        set_solver.
Qed.
End scan.

Section report.
Context `{PyStr}.

Lemma block_keys_coordinates batch cs :
  mapM coordinate batch = Some cs →
  Forall2 (λ b k, block_key b = Ok k) batch (coordinate_key <$> cs).
Proof.
  rewrite mapM_Some. induction 1; simpl; constructor;
    auto using block_key_coordinate.
Qed.

Lemma receive_scan_run blocks st st1 n :
  TurtleController.scan_loop blocks 0 st = (st1, Ok n) →
  TurtleController.receive_scan (JArr blocks) st
  = (if bool_decide (0 < n)
     then set_blocks_json (Stored (JArr (dict_values (known_blocks st1)))) st1
     else st1, Ok (scan_ok n)).
Proof.
  intros Hloop. unfold TurtleController.receive_scan.
  unfold bind at 1. rewrite Hloop.
  unfold TurtleController.save_blocks. by case_bool_decide.
Qed.

Lemma receive_scan_not_a_list data st :
  (∀ blocks, data ≠ JArr blocks) →
  TurtleController.receive_scan data st
  = (st, Ok (Response 400 (JObj [("status", JStr "error");
                                 ("message", JStr "Ungueltige Daten")]))).
Proof. intros Hd. destruct data; try done. by destruct (Hd xs). Qed.
End report.

(** ** Handlers that leave the block index alone *)

Create HintDb keeps discriminated.

Lemma keeps_ret {A} (a : A) : keeps_blocks (ret a).
Proof. done. Qed.
Lemma keeps_lift {A} (r : result A) : keeps_blocks (lift r).
Proof. done. Qed.
Lemma keeps_gets {A} (f : server → A) : keeps_blocks (gets f).
Proof. done. Qed.
Lemma keeps_bind {A B} (m : handler A) (f : A → handler B) :
  keeps_blocks m → (∀ a, keeps_blocks (f a)) → keeps_blocks (bind m f).
Proof.
  intros Hm Hf st. unfold bind. specialize (Hm st).
  destruct (m st) as [st1 [a|e]]; simpl in *; [|done].
  by rewrite Hf.
Qed.
Lemma keeps_if {A} (c : bool) (m1 m2 : handler A) :
  keeps_blocks m1 → keeps_blocks m2 → keeps_blocks (if c then m1 else m2).
Proof. by destruct c. Qed.
Lemma keeps_and_then a b :
  keeps_blocks a → keeps_blocks b → keeps_blocks (a &&& b).
Proof.
  intros. apply keeps_bind; [done|]. intros []; [done|apply keeps_ret].
Qed.
Lemma keeps_or_else a b :
  keeps_blocks a → keeps_blocks b → keeps_blocks (a ||| b).
Proof.
  intros. apply keeps_bind; [done|]. intros []; [apply keeps_ret|done].
Qed.
Lemma keeps_set_commands f : keeps_blocks (modify (set_commands f)).
Proof. done. Qed.
Lemma keeps_set_turtle_status f : keeps_blocks (modify (set_turtle_status f)).
Proof. done. Qed.
Lemma keeps_set_current_command v :
  keeps_blocks (modify (set_current_command v)).
Proof. done. Qed.

#[global] Hint Resolve keeps_ret keeps_lift keeps_gets keeps_bind keeps_if
  keeps_and_then keeps_or_else keeps_set_commands keeps_set_turtle_status
  keeps_set_current_command : keeps.

Lemma keeps_commands_contains label : keeps_blocks (commands_contains label).
Proof. unfold commands_contains. auto with keeps. Qed.
Lemma keeps_commands_getitem label : keeps_blocks (commands_getitem label).
Proof.
  unfold commands_getitem. apply keeps_bind; [auto with keeps|].
  intros k st. by destruct (commands st !! k).
Qed.
#[global] Hint Resolve keeps_commands_contains keeps_commands_getitem : keeps.

Lemma keeps_commands_extend label cmds :
  keeps_blocks (commands_extend label cmds).
Proof. unfold commands_extend. auto 10 with keeps. Qed.
Lemma keeps_commands_pop0 label : keeps_blocks (commands_pop0 label).
Proof.
  unfold commands_pop0. apply keeps_bind; [auto with keeps|]. intros q.
  apply keeps_bind; [auto with keeps|]. intros k.
  destruct q; auto with keeps.
Qed.
#[global] Hint Resolve keeps_commands_extend keeps_commands_pop0 : keeps.

Lemma keeps_queue_commands data :
  keeps_blocks (TurtleController.queue_commands data).
Proof. unfold TurtleController.queue_commands. auto 10 with keeps. Qed.
Lemma keeps_get_all_commands label :
  keeps_blocks (TurtleController.get_all_commands label).
Proof. unfold TurtleController.get_all_commands. auto 10 with keeps. Qed.
Lemma keeps_get_next_command label :
  keeps_blocks (TurtleController.get_next_command label).
Proof. unfold TurtleController.get_next_command. auto 10 with keeps. Qed.
Lemma keeps_set_command data :
  keeps_blocks (TurtleController.set_command data).
Proof. unfold TurtleController.set_command. auto 10 with keeps. Qed.
Lemma keeps_receive_status data :
  keeps_blocks (TurtleController.receive_status data).
Proof. unfold TurtleController.receive_status. auto 10 with keeps. Qed.
Lemma keeps_get_status label :
  keeps_blocks (TurtleController.get_status label).
Proof. unfold TurtleController.get_status. auto 10 with keeps. Qed.
Lemma keeps_index : keeps_blocks TurtleController.index.
Proof. unfold TurtleController.index. auto with keeps. Qed.
Lemma keeps_get_all_status : keeps_blocks TurtleController.get_all_status.
Proof. unfold TurtleController.get_all_status. auto with keeps. Qed.
Lemma keeps_get_scan : keeps_blocks TurtleController.get_scan.
Proof. unfold TurtleController.get_scan. auto with keeps. Qed.

(** ** The block index invariant *)

Lemma dict_wf_empty {K V} `{Countable K} : dict_wf (dict_empty : pydict K V).
Proof.
  split; [constructor|]. intros k. simpl. rewrite lookup_empty.
  split; [by intros ?%elem_of_nil|by intros [??]].
Qed.

Lemma dict_wf_setitem {K V} `{Countable K} (k : K) (v : V) d :
  dict_wf d → dict_wf (dict_setitem k v d).
Proof.
  intros [Hnd Hdom]. unfold dict_setitem, dict_contains.
  case_bool_decide as Hk; split; simpl.
  - done.
  - intros k'. rewrite Hdom. destruct (decide (k = k')) as [->|Hne].
    + by rewrite lookup_insert_eq.
    + by rewrite lookup_insert_ne.
  - apply NoDup_app. split_and!; [done| |apply NoDup_singleton].
    intros k' Hk' ->%list_elem_of_singleton. by apply Hk, Hdom.
  - intros k'. rewrite elem_of_app, list_elem_of_singleton, Hdom.
    destruct (decide (k = k')) as [->|Hne].
    + rewrite lookup_insert_eq. naive_solver.
    + rewrite lookup_insert_ne by done. naive_solver.
Qed.

Section invariant.
Context `{PyStr}.

Lemma key_coherent_setitem k b kb :
  block_key b = Ok k → key_coherent kb → key_coherent (dict_setitem k b kb).
Proof.
  intros Hk Hkb k' b'. unfold dict_get. simpl.
  destruct (decide (k = k')) as [->|Hne].
  - rewrite lookup_insert_eq. by intros [= <-].
  - rewrite lookup_insert_ne by done. apply Hkb.
Qed.

Lemma inv_setitem k b st :
  block_key b = Ok k → block_index_inv st →
  block_index_inv (set_known_blocks (dict_setitem k b) st).
Proof.
  intros Hk [Hwf Hco]. split; simpl.
  - by apply dict_wf_setitem.
  - by apply key_coherent_setitem.
Qed.

Lemma load_loop_inv data st :
  block_index_inv st → block_index_inv (TurtleController.load_loop data st).1.
Proof.
  revert st. induction data as [|block rest IH]; intros st Hinv; [done|].
  simpl. unfold bind at 1, lift.
  destruct (block_key block) as [key|e] eqn:Hk; [|done].
  unfold bind at 1, modify. apply IH. by apply inv_setitem.
Qed.

Lemma startup_inv f : block_index_inv (TurtleController.startup f).
Proof.
  assert (block_index_inv (initial f)) as Hinit.
  { split; [apply dict_wf_empty|]. intros k b. unfold dict_get. simpl.
    by rewrite lookup_empty. }
  unfold TurtleController.startup, TurtleController.load_blocks. simpl.
  destruct f as [| |data]; try done. simpl.
  unfold bind, lift. destruct (py_iter data) as [blocks|e]; [|done].
  by apply load_loop_inv.
Qed.

(** The loop of [receive_scan], on any list whatsoever: it keeps the
    invariant and every entry already stored, also when it raises. *)
Lemma scan_loop_grows data n st :
  (block_index_inv st →
   block_index_inv (TurtleController.scan_loop data n st).1)
  ∧ (∀ k b, dict_get k (known_blocks st) = Some b →
       dict_get k (known_blocks (TurtleController.scan_loop data n st).1)
       = Some b).
Proof.
  revert n st. induction data as [|block rest IH]; intros n st; [done|].
  destruct (block_key block) as [key|e] eqn:Hk.
  - rewrite (scan_loop_cons _ _ _ _ _ Hk).
    destruct (dict_contains key (known_blocks st)) eqn:Hc; [apply IH|].
    destruct (IH (S n) (set_known_blocks (dict_setitem key block) st))
      as [IHinv IHget].
    split.
    + intros Hinv. by apply IHinv, inv_setitem.
    + intros k b Hkb. apply IHget. simpl.
      rewrite dict_get_setitem_ne; [done|]. intros ->.
      apply dict_contains_not_dom, not_elem_of_dom in Hc.
      unfold dict_get in Hkb. congruence.
  - by rewrite (scan_loop_raise _ _ _ _ _ Hk).
Qed.

Lemma receive_scan_blocks blocks st :
  known_blocks (TurtleController.receive_scan (JArr blocks) st).1
  = known_blocks (TurtleController.scan_loop blocks 0 st).1.
Proof.
  unfold TurtleController.receive_scan. unfold bind at 1.
  destruct (TurtleController.scan_loop blocks 0 st) as [st1 [n|e]]; [|done].
  unfold TurtleController.save_blocks. by case_bool_decide.
Qed.

Lemma block_index_inv_ext st st' :
  known_blocks st' = known_blocks st →
  block_index_inv st → block_index_inv st'.
Proof. unfold block_index_inv. by intros ->. Qed.

(** One request: either the index is untouched or it grew by a scan. *)
Lemma handle_grows r st :
  (block_index_inv st → block_index_inv (TurtleController.handle r st).1)
  ∧ (∀ k b, dict_get k (known_blocks st) = Some b →
       dict_get k (known_blocks (TurtleController.handle r st).1) = Some b).
Proof.
  assert (∀ m : handler response, keeps_blocks m →
    (block_index_inv st → block_index_inv (m st).1)
    ∧ (∀ k b, dict_get k (known_blocks st) = Some b →
         dict_get k (known_blocks (m st).1) = Some b)) as Hkeeps.
  { intros m Hm. split.
    - by apply block_index_inv_ext.
    - intros k b. by rewrite Hm. }
  destruct r as [|data|data|label|label|data|label| |data|];
    cbn [TurtleController.handle];
    try (apply Hkeeps;
         first [ apply keeps_set_command | apply keeps_queue_commands
               | apply keeps_get_all_commands | apply keeps_get_next_command
               | apply keeps_receive_status | apply keeps_get_status
               | apply keeps_index | apply keeps_get_all_status
               | apply keeps_get_scan ]).
  destruct data as [| | | |blocks|]; try by apply Hkeeps.
  destruct (scan_loop_grows blocks 0 st) as [Hinv Hget]. split.
  - intros Hst. eapply block_index_inv_ext; [apply receive_scan_blocks|].
    by apply Hinv.
  - intros k b Hkb. rewrite receive_scan_blocks. by apply Hget.
Qed.

Lemma reachable_inv st : reachable st → block_index_inv st.
Proof.
  induction 1 as [f|st r _ IH]; [apply startup_inv|].
  by apply handle_grows.
Qed.

Lemma serve_keeps_stored rs st k b :
  dict_get k (known_blocks st) = Some b →
  dict_get k (known_blocks (serve rs st)) = Some b.
Proof.
  revert st. induction rs as [|r rs IH]; intros st Hkb; [done|].
  simpl. by apply IH, handle_grows.
Qed.

(** Under the invariant, the listing of [GET /report] has one block per
    coordinate key. *)
Lemma listing_keys kb :
  dict_wf kb → key_coherent kb →
  block_key <$> dict_values kb = Ok <$> d_order kb.
Proof.
  intros [_ Hdom] Hco. unfold dict_values.
  assert (∀ k, k ∈ d_order kb → is_Some (d_items kb !! k)) as Hin
    by (intros k; apply Hdom).
  clear Hdom. induction (d_order kb) as [|k ks IH]; [done|]. simpl.
  destruct (Hin k) as [b Hb]; [left|]. rewrite Hb. simpl.
  rewrite (Hco k b Hb). f_equal. apply IH. intros k' ?. apply Hin. by right.
Qed.

Lemma listing_nodup st :
  block_index_inv st → NoDup (block_key <$> dict_values (known_blocks st)).
Proof.
  intros [Hwf Hco]. rewrite listing_keys by done.
  apply NoDup_fmap_2; [|apply Hwf]. by intros ?? [=].
Qed.
End invariant.

(** ** The claims about the command queues *)

Lemma enqueued_intro st label cmds st' :
  commands st' = <[KStr label := queue_of label st ++ cmds]> (commands st) →
  enqueued st label cmds (st', Ok queued).
Proof.
  intros Hst'. unfold enqueued, queue_of. simpl. rewrite Hst'.
  rewrite lookup_insert_eq. split_and!; [done|done|by eexists|].
  intros k Hk. by rewrite lookup_insert_ne.
Qed.

(** C1, for non-empty labels: after [enqueue(A, [c1, c2])] on an empty (or
    absent) queue of [A], the first dequeue answers [c1] and the second
    answers [c2]. *)
Theorem fifo_per_agent st A c1 c2 :
  A ≠ "" → queue_of A st = [] → fifo_pair st A c1 c2.
Proof.
  intros HA Hq. unfold fifo_pair.
  rewrite (queue_commands_accepts _ _ _ HA), Hq. simpl.
  rewrite (get_next_command_head A c1 [c2]);
    [|done|apply lookup_insert_eq]. simpl.
  rewrite (get_next_command_head A c2 []); [done|done|].
  apply lookup_insert_eq.
Qed.

Lemma fifo_per_agent_witness :
  "t1" ≠ "" ∧ queue_of "t1" (initial Missing) = []
  ∧ fifo_pair (initial Missing) "t1" (JStr "forward") (JStr "dig").
Proof.
  split; [discriminate|]. split; [reflexivity|].
  apply fifo_per_agent; [discriminate|reflexivity].
Defined.

(** C1 as stated, for every label, fails at the empty label: the enqueue is
    refused and the dequeue answers [null]. *)
Lemma fifo_fails_for_empty_label :
  ¬ fifo_pair (initial Missing) "" (JStr "forward") (JStr "dig").
Proof. intros [Hfirst _]. vm_compute in Hfirst. discriminate. Qed.

(** C5: a dequeue for a label whose queue is empty or was never created
    answers [{"command": null}], raises nothing and leaves the state, and
    so the queue map, as it was. *)
Theorem dequeue_empty_or_unknown st label :
  commands st !! KStr label = None ∨ commands st !! KStr label = Some [] →
  TurtleController.get_next_command (Some label) st = (st, Ok no_command).
Proof.
  intros Hq. apply get_next_command_none. unfold queue_of.
  by destruct Hq as [-> | ->].
Qed.

Lemma dequeue_empty_or_unknown_witness :
  (commands (initial Missing) !! KStr "t1" = None
   ∨ commands (initial Missing) !! KStr "t1" = Some [])
  ∧ TurtleController.get_next_command (Some "t1") (initial Missing)
    = (initial Missing, Ok no_command).
Proof.
  split; [left; reflexivity|].
  apply dequeue_empty_or_unknown. left; reflexivity.
Defined.

(** C10: for a label without an entry in [commands], neither
    [GET /commands] nor [GET /command] creates one: both leave the whole
    state unchanged and answer with the empty queue, respectively [null]. *)
Theorem queries_never_create_queue st label :
  commands st !! KStr label = None →
  TurtleController.get_all_commands (Some label) st
  = (st, Ok (jsonify (JObj [("commands", JArr [])])))
  ∧ TurtleController.get_next_command (Some label) st = (st, Ok no_command).
Proof.
  intros Hq. split.
  - by apply get_all_commands_unknown.
  - apply get_next_command_none. unfold queue_of. by rewrite Hq.
Qed.

Lemma queries_never_create_queue_witness :
  commands (initial Missing) !! KStr "t9" = None
  ∧ TurtleController.get_all_commands (Some "t9") (initial Missing)
    = (initial Missing, Ok (jsonify (JObj [("commands", JArr [])])))
  ∧ TurtleController.get_next_command (Some "t9") (initial Missing)
    = (initial Missing, Ok no_command).
Proof.
  split; [reflexivity|]. apply queries_never_create_queue. reflexivity.
Defined.

(** C4 as stated has the caller receive the number of commands appended;
    the response is the same whatever was appended, so no reading of it
    yields that number. *)
Lemma enqueue_response_carries_no_count : ¬ returns_count_appended.
Proof.
  intros [count_of Hcount].
  destruct (Hcount (initial Missing) "t1" []) as (r0 & Hr0 & Hn0);
    [discriminate|].
  destruct (Hcount (initial Missing) "t1" [JStr "forward"])
    as (r1 & Hr1 & Hn1); [discriminate|].
  vm_compute in Hr0, Hr1. simplify_eq/=. congruence.
Qed.

Section queue_claims.
Context `{PyStr}.

(** C4, with the acknowledgement the code gives: for a non-empty label the
    command sequence goes to the tail of that agent's queue, which exists
    afterwards, no other queue changes, and the caller gets the fixed
    answer [queued]; so does the WebSocket server. *)
Theorem enqueue_appends_to_tail st label cmds :
  label ≠ "" →
  enqueued st label cmds
    (TurtleController.queue_commands (enqueue_request label cmds) st)
  ∧ enqueued st label cmds
      (TurtleControllerWebSocket.queue_commands
         (enqueue_request label cmds) st).
Proof.
  intros Hl. split.
  - rewrite queue_commands_accepts by done. by apply enqueued_intro.
  - rewrite ws_queue_commands_accepts by done. by apply enqueued_intro.
Qed.

(** C9, for non-empty labels: whatever the label, known or not, the
    enqueue is accepted and the commands are queued; a label seen for the
    first time gets exactly these commands.  The WebSocket [command] event
    queues a non-empty command the same way. *)
Theorem nonempty_label_accepted st label cmds :
  label ≠ "" →
  label_accepted st label cmds
  ∧ (commands st !! KStr label = None →
     queue_of label
       (TurtleController.queue_commands (enqueue_request label cmds) st).1
     = cmds)
  ∧ ∀ cmd, py_truthy cmd = true →
      let out := TurtleControllerWebSocket.handle_command
                   (JObj [("label", JStr label); ("command", cmd)]) st in
      out.2 = Ok (JObj [("status", JStr "ok")])
      ∧ queue_of label out.1 = queue_of label st ++ [cmd].
Proof.
  intros Hl. unfold label_accepted.
  rewrite queue_commands_accepts by done. simpl.
  rewrite queue_of_set_commands_eq. split_and!; [done|done| |].
  - unfold queue_of. by intros ->.
  - intros cmd Hcmd. rewrite handle_command_accepts by done. simpl.
    split; [done|]. unfold queue_of. simpl. by rewrite lookup_insert_eq.
Qed.
End queue_claims.

Lemma enqueue_appends_to_tail_witness :
  "t1" ≠ ""
  ∧ enqueued (initial Missing) "t1" [JStr "forward"; JStr "dig"]
      (TurtleController.queue_commands
         (enqueue_request "t1" [JStr "forward"; JStr "dig"]) (initial Missing)).
Proof.
  split; [discriminate|].
  apply (enqueue_appends_to_tail (H:=example_str)). discriminate.
Defined.

Lemma nonempty_label_accepted_witness :
  "t1" ≠ "" ∧ label_accepted (initial Missing) "t1" [JStr "forward"].
Proof.
  split; [discriminate|].
  apply (nonempty_label_accepted (H:=example_str)). discriminate.
Defined.

(** C9 as stated, for every label string, fails at the empty string:
    [POST /commands] answers 400 and queues nothing. *)
Lemma empty_label_rejected :
  ¬ label_accepted (initial Missing) "" [JStr "forward"].
Proof. intros [Hresp _]. vm_compute in Hresp. discriminate. Qed.

(** ** The claims about the status cache *)

(** C6: a snapshot carrying the id, stored by [POST /status], is what
    [GET /status/<id>] answers right after, field for field. *)
Theorem upsert_then_get st id snapshot :
  obj_lookup "label" snapshot = Some (JStr id) →
  let st' := (TurtleController.receive_status (JObj snapshot) st).1 in
  TurtleController.get_status id st' = (st', Ok (jsonify (JObj snapshot))).
Proof.
  intros Hl. rewrite (receive_status_stores id) by done. simpl.
  apply get_status_found.
  - apply dict_get_setitem_eq.
  - by eapply obj_lookup_nonempty.
Qed.

Lemma upsert_then_get_witness :
  obj_lookup "label" t1_status = Some (JStr "t1")
  ∧ let st' := (TurtleController.receive_status (JObj t1_status)
                  (initial Missing)).1 in
    TurtleController.get_status "t1" st'
    = (st', Ok (jsonify (JObj t1_status))).
Proof. split; [reflexivity|]. apply upsert_then_get. reflexivity. Defined.

(** C7 as stated does not hold.  An object without a ["label"] is
    refused by the event handler in silence, whichever socket layer is
    installed: nothing is raised, and the acknowledgement is the [None] an
    event gives when all went well.  An object whose ["label"] is a list
    is not stored: the route raises [TypeError].  The payload [5], which
    has no ["label"] field either, is not answered with status 400. *)
Lemma upsert_not_as_stated :
  ¬ upsert_as_stated (sio:=lenient_socket)
      (JObj [("fuelLevel", JNum 80)]) (initial Missing)
  ∧ ¬ upsert_as_stated (sio:=strict_socket)
        (JObj [("fuelLevel", JNum 80)]) (initial Missing)
  ∧ ¬ upsert_as_stated (sio:=lenient_socket)
        (JObj [("label", JArr [JStr "a"])]) (initial Missing)
  ∧ ¬ upsert_as_stated (sio:=lenient_socket) (JNum 5) (initial Missing).
Proof.
  split_and!.
  - intros (_ & _ & [[e He]|(kvs & He & _)] & _); vm_compute in He;
      discriminate He.
  - intros (_ & _ & [[e He]|(kvs & He & _)] & _); vm_compute in He;
      discriminate He.
  - intros (Hr & _). vm_compute in Hr. discriminate Hr.
  - intros ([body Hr] & _). vm_compute in Hr. discriminate Hr.
Qed.

(** C7, amended.  The route answers with the 400 error exactly for the
    payloads its guard names (empty, or a container without ["label"]),
    and then nothing changes; the event handler drops such a payload in
    silence: state unchanged, nothing broadcast, the acknowledgement
    [None].  An object whose ["label"] is a string is accepted and becomes
    the stored snapshot of that id in one assignment, the other ids
    staying as they were, on the route of either server and on the
    event. *)
Theorem upsert_guard_and_store {sio : SocketLayer} st data :
  (lacks_label data
   ↔ TurtleController.receive_status data st = (st, Ok invalid_status))
  ∧ (lacks_label data →
     TurtleControllerWebSocket.receive_status data st
     = (st, Ok invalid_status)
     ∧ TurtleControllerWebSocket.handle_turtle_status data st
       = (st, Ok JNull))
  ∧ (∀ snapshot id,
       data = JObj snapshot → obj_lookup "label" snapshot = Some (JStr id) →
       let out := TurtleController.receive_status data st in
       out = (set_turtle_status (dict_setitem (KStr id) data) st,
              Ok status_ok)
       ∧ dict_get (KStr id) (turtle_status out.1) = Some data
       ∧ (∀ k, k ≠ KStr id →
            dict_get k (turtle_status out.1) = dict_get k (turtle_status st))
       ∧ (TurtleControllerWebSocket.receive_status data st).2
         = Ok status_ok
       ∧ turtle_status (TurtleControllerWebSocket.receive_status data st).1
         = turtle_status out.1
       ∧ turtle_status
           (TurtleControllerWebSocket.handle_turtle_status data st).1
         = turtle_status out.1).
Proof.
  split_and!.
  - split; [by apply receive_status_rejects|].
    intros Hr. destruct (py_truthy data) eqn:Ht; [|by left].
    right. revert Hr. unfold TurtleController.receive_status. run.
    rewrite Ht. simpl.
    destruct (py_contains "label" data) as [[]|e]; simpl; [|done|done].
    destruct (py_getitem data "label") as [label|e]; simpl; [|done].
    destruct (to_key label); simpl; intros [=].
  - intros Hd. split.
    + by apply ws_receive_status_rejects.
    + by apply handle_turtle_status_rejects.
  - intros snapshot id -> Hl.
    rewrite (receive_status_stores id), (ws_receive_status_stores id),
      (handle_turtle_status_cache id) by done. simpl.
    split_and!; [done|apply dict_get_setitem_eq| |done|done|done].
    intros k Hk. by apply dict_get_setitem_ne.
Qed.

Lemma upsert_guard_and_store_witness :
  (lacks_label (JObj [("fuelLevel", JNum 80)])
   ∧ TurtleControllerWebSocket.handle_turtle_status (sio:=strict_socket)
       (JObj [("fuelLevel", JNum 80)]) (initial Missing)
     = (initial Missing, Ok JNull))
  ∧ (obj_lookup "label" t1_status = Some (JStr "t1")
     ∧ dict_get (KStr "t1")
         (turtle_status
            (TurtleController.receive_status (JObj t1_status)
               (initial Missing)).1)
       = Some (JObj t1_status)).
Proof.
  split.
  - split; [right; reflexivity|].
    apply (upsert_guard_and_store (sio:=strict_socket)). right; reflexivity.
  - split; [reflexivity|].
    apply (proj2 (proj2 (upsert_guard_and_store (sio:=strict_socket)
                           (initial Missing) (JObj t1_status)))
             t1_status "t1" eq_refl eq_refl).
Defined.

(** ** The claims about the block index *)

Section block_claims.
Context `{PyStr}.

(** C2, counting each coordinate once: for a batch of well-formed block
    records [POST /report] answers with the number of distinct coordinate
    keys of the batch that the index did not hold before the call.  Hence a
    batch of known coordinates gives 0, a batch of N pairwise distinct
    unknown coordinates gives N, and the same batch sent again gives 0 and
    changes nothing. *)
Theorem report_counts_distinct_unknown st batch cs :
  mapM coordinate batch = Some cs →
  ∃ st' n,
    TurtleController.receive_scan (JArr batch) st = (st', Ok (scan_ok n))
    ∧ n = size (list_to_set (coordinate_key <$> cs) ∖ known_keys st)
    ∧ ((∀ c, c ∈ cs → coordinate_key c ∈ known_keys st) → n = 0)
    ∧ (NoDup cs → (∀ c, c ∈ cs → coordinate_key c ∉ known_keys st) →
       n = length batch)
    ∧ TurtleController.receive_scan (JArr batch) st' = (st', Ok (scan_ok 0)).
Proof.
  intros Hwf. pose proof (block_keys_coordinates _ _ Hwf) as Hkeys.
  destruct (scan_loop_count batch _ 0 st Hkeys) as (kb' & Hloop & Hdom).
  simpl in Hloop.
  set (n := size (list_to_set (coordinate_key <$> cs) ∖ known_keys st)) in *.
  set (st1 := set_known_blocks (λ _, kb') st) in *.
  eexists _, n. split; [by apply receive_scan_run|].
  split; [done|]. split; [|split].
  - intros Hknown. subst n. apply size_empty_iff.
    set_unfold. naive_solver.
  - intros Hnd Hnew. subst n.
    assert (list_to_set (coordinate_key <$> cs) ∖ known_keys st
            = (list_to_set (coordinate_key <$> cs) : gset string)) as ->.
    { apply set_eq. intros k. set_unfold. naive_solver. }
    rewrite size_list_to_set by by apply (NoDup_fmap_2 _).
    rewrite length_fmap. apply length_mapM in Hwf. lia.
  - set (st' := if bool_decide (0 < n) then _ else st1).
    assert (known_keys st' = known_keys st ∪ list_to_set (coordinate_key <$> cs))
      as Hst'.
    { rewrite <-Hdom. unfold st'. by case_bool_decide. }
    rewrite (receive_scan_run _ _ st' 0); [done|].
    apply (scan_loop_known _ _ _ _ Hkeys).
    intros k Hk. rewrite Hst'. set_solver.
Qed.

(** C3 at a batch whose second record lacks [y] and [z]: the handler
    raises [KeyError] instead of answering with a validation error, and by
    then the first block is in the index, which the file was not told. *)
Theorem report_missing_field_partial :
  let out := TurtleController.receive_scan
               (JArr [stone; JObj [("x", JNum 5)]]) (initial Missing) in
  out.2 = Raise KeyError
  ∧ dict_get "1,2,3" (known_blocks out.1) = Some stone
  ∧ blocks_json out.1 = Missing.
Proof. by vm_compute. Qed.

(** C8: in every state the server reaches, each stored block is filed
    under the key of its own coordinates and the listing of the index has
    pairwise distinct coordinate keys (one block per coordinate); and
    whatever requests follow, a block once stored is still stored, under
    the same key and with the same record. *)
Theorem block_index_first_write_wins st :
  reachable st →
  (∀ k b, dict_get k (known_blocks st) = Some b → block_key b = Ok k)
  ∧ NoDup (block_key <$> dict_values (known_blocks st))
  ∧ ∀ rs k b,
      dict_get k (known_blocks st) = Some b →
      dict_get k (known_blocks (serve rs st)) = Some b.
Proof.
  intros Hst. pose proof (reachable_inv st Hst) as Hinv. split_and!.
  - apply Hinv.
  - by apply listing_nodup.
  - intros rs k b. apply serve_keeps_stored.
Qed.
End block_claims.

Lemma report_counts_distinct_unknown_witness :
  mapM coordinate [stone; stone] = Some [(1, 2, 3); (1, 2, 3)]%Z
  ∧ ∃ st' n,
      TurtleController.receive_scan (H:=example_str) (JArr [stone; stone])
        (initial Missing)
      = (st', Ok (scan_ok n))
      ∧ n = 1.
Proof.
  split; [reflexivity|].
  destruct (report_counts_distinct_unknown (H:=example_str) (initial Missing)
              [stone; stone] [(1, 2, 3); (1, 2, 3)]%Z eq_refl)
    as (st' & n & Hrun & Hn & _).
  exists st', n. split; [exact Hrun|]. rewrite Hn. reflexivity.
Defined.

(** C2 as stated counts the blocks of the batch whose key was absent
    before the call; a batch naming one unknown coordinate twice holds two
    such blocks, and the answer is 1. *)
Lemma repeated_coordinate_counted_once :
  ¬ counts_unknown_blocks (H:=example_str) (initial Missing) [stone; stone].
Proof. intros Hcount. vm_compute in Hcount. discriminate. Qed.

Lemma block_index_first_write_wins_witness :
  reachable (H:=example_str)
    (TurtleController.startup (H:=example_str) (Stored (JArr [stone])))
  ∧ dict_get "1,2,3"
      (known_blocks
         (serve (H:=example_str)
            [TurtleController.ReceiveScan (JArr [stone]);
             TurtleController.GetScan]
            (TurtleController.startup (H:=example_str)
               (Stored (JArr [stone])))))
    = Some stone.
Proof.
  split; [constructor|].
  apply (block_index_first_write_wins (H:=example_str)); [constructor|].
  reflexivity.
Defined.

(** * Further properties of the two servers *)

(** ** Command queues: draining, isolation, malformed requests *)

Lemma dequeues_queue (l : string) q rest st :
  l ≠ "" → commands st !! KStr l = Some (q ++ rest) →
  dequeues (length q) l st
  = (set_commands <[KStr l := rest]> st, command_answer <$> q).
Proof.
  intros Hl. revert st. induction q as [|c q IH]; intros st Hq; simpl.
  - f_equal. destruct st. unfold set_commands. simpl in *. f_equal.
    symmetry. by apply insert_id.
  - rewrite (get_next_command_head l c (q ++ rest)) by done. simpl.
    rewrite IH by (simpl; apply lookup_insert_eq). simpl.
    rewrite set_commands_twice. f_equal. destruct st. unfold set_commands.
    simpl. f_equal. apply insert_insert_eq.
Qed.

(** X1: After an enqueue for a non-empty label, as many dequeues as the queue
    is long hand out what was queued before, then the new commands, each
    once and in order; the entry stays, empty; one more dequeue gives
    [null]. *)
Theorem enqueue_then_drain st label cmds :
  label ≠ "" →
  let st1 :=
    (TurtleController.queue_commands (enqueue_request label cmds) st).1 in
  let run := dequeues (length (queue_of label st ++ cmds)) label st1 in
  run.2 = command_answer <$> (queue_of label st ++ cmds)
  ∧ commands run.1 !! KStr label = Some []
  ∧ TurtleController.get_next_command (Some label) run.1
    = (run.1, Ok no_command).
Proof.
  intros Hl. rewrite queue_commands_accepts by done. simpl.
  rewrite (dequeues_queue label (queue_of label st ++ cmds) []) by
    (try rewrite app_nil_r; try done; simpl; apply lookup_insert_eq).
  simpl. split_and!; [done|apply lookup_insert_eq|].
  apply get_next_command_none. unfold queue_of. simpl.
  by rewrite lookup_insert_eq.
Qed.

Lemma enqueue_then_drain_witness :
  "t1" ≠ ""
  ∧ (dequeues 2 "t1"
       (TurtleController.queue_commands
          (enqueue_request "t1" [JStr "forward"; JStr "dig"])
          (initial Missing)).1).2
    = [command_answer (JStr "forward"); command_answer (JStr "dig")].
Proof.
  split; [discriminate|].
  apply (enqueue_then_drain (initial Missing) "t1"
           [JStr "forward"; JStr "dig"]). discriminate.
Defined.

(** X2: A dequeue, whatever its label, changes nothing but the queue of that
    label: every other queue, and every queue entry's existence, stays. *)
Theorem dequeue_touches_one_queue st label :
  let st' := (TurtleController.get_next_command label st).1 in
  set_commands (λ _, commands st) st' = st
  ∧ (∀ k, Some k ≠ (KStr <$> label) → commands st' !! k = commands st !! k)
  ∧ (∀ k, is_Some (commands st !! k) → is_Some (commands st' !! k)).
Proof.
  assert (set_commands (λ _, commands st) st = st) as Hsame
    by by destruct st.
  destruct label as [l|];
    [|by rewrite get_next_command_none by done; simpl; split_and!].
  destruct (decide (l = "")) as [->|Hl].
  { assert (TurtleController.get_next_command (Some "") st
            = (st, Ok no_command)) as -> by done. simpl. by split_and!. }
  destruct (commands st !! KStr l) as [[|c q]|] eqn:Hq.
  - rewrite get_next_command_none by (unfold queue_of; by rewrite Hq).
    simpl. by split_and!.
  - rewrite (get_next_command_head l c q) by done. simpl.
    split_and!; [by rewrite set_commands_twice| |].
    + intros k Hk. apply lookup_insert_ne. congruence.
    + intros k. destruct (decide (k = KStr l)) as [->|Hne].
      * rewrite lookup_insert_eq. by eexists.
      * by rewrite lookup_insert_ne.
  - rewrite get_next_command_none by (unfold queue_of; by rewrite Hq).
    simpl. by split_and!.
Qed.

(** X3: [GET /commands] never changes the state and never raises; for a
    non-empty label it shows the whole queue, which is what the dequeues
    would hand out. *)
Theorem peek_is_read_only st label :
  (TurtleController.get_all_commands label st).1 = st
  ∧ ∀ l, label = Some l → l ≠ "" →
      (TurtleController.get_all_commands label st).2
      = Ok (jsonify (JObj [("commands", JArr (queue_of l st))])).
Proof.
  unfold TurtleController.get_all_commands, commands_contains,
    commands_getitem, queue_of. run.
  destruct label as [l|]; simpl; [|split; [done|by intros]].
  destruct (decide (l = "")) as [->|Hl]; [split; [done|by intros ? [= <-]]|].
  rewrite (str_truthy l Hl). simpl.
  destruct (commands st !! KStr l) as [q|] eqn:Hq; simpl.
  - rewrite Hq. split; [done|]. intros ? [= <-] _. simpl. by rewrite Hq.
  - split; [done|]. intros ? [= <-] _. simpl. by rewrite Hq.
Qed.

Lemma peek_is_read_only_witness :
  Some "t1" = Some "t1" ∧ "t1" ≠ ""
  ∧ (TurtleController.get_all_commands (Some "t1") (initial Missing)).2
    = Ok (jsonify (JObj [("commands", JArr [])])).
Proof.
  split; [reflexivity|]. split; [discriminate|].
  apply (proj2 (peek_is_read_only (initial Missing) (Some "t1")) "t1");
    [reflexivity|discriminate].
Defined.

Lemma commands_getitem_str (l : string) st :
  commands_getitem (JStr l) st
  = (set_commands <[KStr l := queue_of l st]> st, Ok (queue_of l st)).
Proof.
  unfold commands_getitem, queue_of. run.
  destruct (commands st !! KStr l) as [q|] eqn:Hq; simpl; [|done].
  f_equal. destruct st. unfold set_commands. simpl in *. f_equal.
  symmetry. by apply insert_id.
Qed.

(** X4: A [commands] value that cannot be iterated (a number, a boolean,
    [null]) makes the enqueue raise [TypeError]; no command is added, but
    the subscript has already run, so the label has a queue afterwards
    even if it had none. *)
Theorem enqueue_not_iterable st label kvs cmds :
  label ≠ "" →
  obj_lookup "label" kvs = Some (JStr label) →
  obj_lookup "commands" kvs = Some cmds →
  py_iter cmds = Raise TypeError →
  TurtleController.queue_commands (JObj kvs) st
  = (set_commands <[KStr label := queue_of label st]> st, Raise TypeError).
Proof.
  intros Hl Hlabel Hcmds Hiter. unfold TurtleController.queue_commands.
  unfold bind at 1 2. simpl. rewrite Hlabel, Hcmds. simpl.
  rewrite (str_truthy label Hl). unfold bind at 1.
  unfold commands_extend. unfold bind at 1.
  rewrite commands_getitem_str. unfold bind at 1, lift. by rewrite Hiter.
Qed.

Lemma enqueue_not_iterable_witness :
  "t1" ≠ ""
  ∧ commands
      (TurtleController.queue_commands
         (JObj [("label", JStr "t1"); ("commands", JNum 3)])
         (initial Missing)).1 !! KStr "t1" = Some [].
Proof.
  split; [discriminate|].
  rewrite (enqueue_not_iterable (initial Missing) "t1"
             [("label", JStr "t1"); ("commands", JNum 3)] (JNum 3));
    [reflexivity|discriminate|reflexivity|reflexivity|reflexivity].
Defined.

(** X5: What is queued is what iterating the [commands] value yields: a string
    is split into its characters, an object gives its keys, and a request
    without the field queues nothing (and is still answered 200). *)
Theorem enqueue_iterates_commands st label kvs :
  label ≠ "" →
  obj_lookup "label" kvs = Some (JStr label) →
  ∀ items,
    py_iter (default (JArr []) (obj_lookup "commands" kvs)) = Ok items →
    TurtleController.queue_commands (JObj kvs) st
    = (set_commands <[KStr label := queue_of label st ++ items]> st,
       Ok queued).
Proof.
  intros Hl Hlabel items Hiter. unfold TurtleController.queue_commands.
  unfold bind at 1 2. simpl. rewrite Hlabel. simpl.
  rewrite (str_truthy label Hl). unfold bind at 1.
  unfold commands_extend. unfold bind at 1.
  rewrite commands_getitem_str. unfold bind at 1, lift. rewrite Hiter.
  run. rewrite set_commands_twice. f_equal.
  destruct st. unfold set_commands. simpl. f_equal. apply insert_insert_eq.
Qed.

Lemma enqueue_iterates_commands_witness :
  "t1" ≠ ""
  ∧ queue_of "t1"
      (TurtleController.queue_commands
         (JObj [("label", JStr "t1"); ("commands", JStr "dig")])
         (initial Missing)).1
    = [JStr "d"; JStr "i"; JStr "g"].
Proof.
  split; [discriminate|].
  rewrite (enqueue_iterates_commands (initial Missing) "t1"
             [("label", JStr "t1"); ("commands", JStr "dig")]
             ltac:(discriminate) eq_refl
             [JStr "d"; JStr "i"; JStr "g"] eq_refl).
  reflexivity.
Defined.

(** X6: A request whose label is missing or falsy ([null], [false], [0], the
    empty string, list or object) is answered 400 by both servers and by
    the [command] event, and nothing changes; a body that is not an object
    makes the handler raise [AttributeError], again with nothing changed. *)
Theorem enqueue_without_label `{PyStr} st data :
  (∀ kvs, data = JObj kvs →
     py_truthy (default JNull (obj_lookup "label" kvs)) = false →
     TurtleController.queue_commands data st
     = (st, Ok (Response 400 (JObj [("status", JStr "error");
                                    ("message", JStr "Kein Label angegeben")])))
     ∧ TurtleControllerWebSocket.queue_commands data st
       = TurtleController.queue_commands data st
     ∧ TurtleControllerWebSocket.handle_command data st
       = (st, Ok (JObj [("status", JStr "error");
                        ("message", JStr "Label oder Command fehlt")])))
  ∧ (∀ kvs, data = JObj kvs →
     py_truthy (default JNull (obj_lookup "command" kvs)) = false →
     TurtleControllerWebSocket.handle_command data st
     = (st, Ok (JObj [("status", JStr "error");
                      ("message", JStr "Label oder Command fehlt")])))
  ∧ ((∀ kvs, data ≠ JObj kvs) →
     TurtleController.queue_commands data st = (st, Raise AttributeError)
     ∧ TurtleControllerWebSocket.queue_commands data st
       = (st, Raise AttributeError)
     ∧ TurtleControllerWebSocket.handle_command data st
       = (st, Raise AttributeError)).
Proof.
  split_and!.
  - intros kvs -> Hl. split_and!.
    + unfold TurtleController.queue_commands. unfold bind at 1 2. simpl.
      by rewrite Hl.
    + unfold TurtleController.queue_commands,
        TurtleControllerWebSocket.queue_commands.
      unfold bind at 1 2 4 5. simpl. by rewrite Hl.
    + unfold TurtleControllerWebSocket.handle_command.
      unfold bind at 1 2. simpl. by rewrite Hl.
  - intros kvs -> Hc. unfold TurtleControllerWebSocket.handle_command.
    unfold bind at 1 2. simpl. by rewrite Hc, andb_false_r.
  - intros Hd. destruct data as [| | | | |kvs]; try done. by destruct (Hd kvs).
Qed.

Lemma enqueue_without_label_witness :
  (py_truthy (default JNull
     (obj_lookup "label" [("commands", JArr [JStr "dig"])])) = false
   ∧ TurtleController.queue_commands
       (JObj [("commands", JArr [JStr "dig"])]) (initial Missing)
     = (initial Missing,
        Ok (Response 400 (JObj [("status", JStr "error");
                                ("message", JStr "Kein Label angegeben")]))))
  ∧ ((∀ kvs, JNull ≠ JObj kvs)
     ∧ TurtleController.queue_commands JNull (initial Missing)
       = (initial Missing, Raise AttributeError)).
Proof.
  split.
  - split; [reflexivity|].
    apply (proj1 (enqueue_without_label (H:=example_str) (initial Missing)
                    (JObj [("commands", JArr [JStr "dig"])]))
             [("commands", JArr [JStr "dig"])] eq_refl eq_refl).
  - split; [discriminate|].
    apply (proj2 (proj2 (enqueue_without_label (H:=example_str)
                           (initial Missing) JNull))). discriminate.
Defined.


(** ** Frames: which handler touches which part of the state *)

Create HintDb frame discriminated.

Lemma keeps_ret' {X A} (proj : server → X) (a : A) : keeps proj (ret a).
Proof. done. Qed.
Lemma keeps_lift' {X A} (proj : server → X) (r : result A) :
  keeps proj (lift r).
Proof. done. Qed.
Lemma keeps_gets' {X A} (proj : server → X) (f : server → A) :
  keeps proj (gets f).
Proof. done. Qed.
Lemma keeps_bind' {X A B} (proj : server → X) (m : handler A)
    (f : A → handler B) :
  keeps proj m → (∀ a, keeps proj (f a)) → keeps proj (bind m f).
Proof.
  intros Hm Hf st. unfold bind. specialize (Hm st).
  destruct (m st) as [st1 [a|e]]; simpl in *; [|done].
  by rewrite Hf.
Qed.
Lemma keeps_if' {X A} (proj : server → X) (c : bool) (m1 m2 : handler A) :
  keeps proj m1 → keeps proj m2 → keeps proj (if c then m1 else m2).
Proof. by destruct c. Qed.
Lemma keeps_and_then' {X} (proj : server → X) a b :
  keeps proj a → keeps proj b → keeps proj (a &&& b).
Proof.
  intros. apply keeps_bind'; [done|]. intros []; [done|apply keeps_ret'].
Qed.
Lemma keeps_or_else' {X} (proj : server → X) a b :
  keeps proj a → keeps proj b → keeps proj (a ||| b).
Proof.
  intros. apply keeps_bind'; [done|]. intros []; [apply keeps_ret'|done].
Qed.
Lemma keeps_modify' {X} (proj : server → X) f :
  (∀ st, proj (f st) = proj st) → keeps proj (modify f).
Proof. intros Hf st. apply Hf. Qed.
Lemma keeps_commands_getitem' {X} (proj : server → X) label :
  (∀ f st, proj (set_commands f st) = proj st) →
  keeps proj (commands_getitem label).
Proof.
  intros Hf. unfold commands_getitem. apply keeps_bind'; [apply keeps_lift'|].
  intros k st. destruct (commands st !! k); [done|apply Hf].
Qed.
Lemma keeps_list_match {X A B} (proj : server → X) (q : list A)
    (m1 : handler B) (m2 : A → list A → handler B) :
  keeps proj m1 → (∀ a q', keeps proj (m2 a q')) →
  keeps proj (match q with [] => m1 | a :: q' => m2 a q' end).
Proof. by destruct q. Qed.

#[global] Hint Resolve keeps_ret' keeps_lift' keeps_gets' keeps_bind'
  keeps_if' keeps_and_then' keeps_or_else' keeps_list_match : frame.
#[global] Hint Extern 1 (keeps _ (modify _)) =>
  apply keeps_modify'; intros; reflexivity : frame.
#[global] Hint Extern 1 (keeps _ (commands_getitem _)) =>
  apply keeps_commands_getitem'; intros; reflexivity : frame.

Ltac frame :=
  repeat first
    [ progress unfold
        TurtleController.index, TurtleController.set_command,
        TurtleController.queue_commands, TurtleController.get_all_commands,
        TurtleController.get_next_command, TurtleController.receive_status,
        TurtleController.get_status, TurtleController.get_all_status,
        TurtleController.get_scan, TurtleController.save_blocks,
        TurtleControllerWebSocket.index,
        TurtleControllerWebSocket.set_command,
        TurtleControllerWebSocket.queue_commands,
        TurtleControllerWebSocket.get_all_commands,
        TurtleControllerWebSocket.get_next_command,
        TurtleControllerWebSocket.receive_status,
        TurtleControllerWebSocket.get_status,
        TurtleControllerWebSocket.get_all_status,
        TurtleControllerWebSocket.get_scan,
        TurtleControllerWebSocket.save_blocks,
        TurtleControllerWebSocket.get_connected_clients,
        TurtleControllerWebSocket.handle_connect,
        TurtleControllerWebSocket.handle_disconnect,
        TurtleControllerWebSocket.handle_register,
        TurtleControllerWebSocket.handle_turtle_status,
        TurtleControllerWebSocket.emit_broadcast,
        TurtleControllerWebSocket.handle_command,
        TurtleControllerWebSocket.emit,
        TurtleControllerWebSocket.acknowledge,
        TurtleControllerWebSocket.respond,
        commands_contains, commands_extend, commands_append, commands_pop0 ];
  auto 14 with frame.

Section frames.
Context `{PyStr}.

Lemma keeps_scan_loop {X} (proj : server → X) data n :
  (∀ f st, proj (set_known_blocks f st) = proj st) →
  keeps proj (TurtleController.scan_loop data n).
Proof.
  intros Hf. revert n. induction data as [|block rest IH]; intros n; simpl.
  - apply keeps_ret'.
  - apply keeps_bind'; [apply keeps_lift'|]. intros key.
    apply keeps_bind'; [apply keeps_gets'|]. intros known.
    apply keeps_if'; [|apply IH].
    apply keeps_bind'; [|intros; apply IH].
    apply keeps_modify'. intros. apply Hf.
Qed.

Lemma keeps_receive_scan {X} (proj : server → X) data :
  (∀ f st, proj (set_known_blocks f st) = proj st) →
  (∀ f st, proj (set_blocks_json f st) = proj st) →
  keeps proj (TurtleController.receive_scan data).
Proof.
  intros Hk Hf. unfold TurtleController.receive_scan.
  destruct data as [| | | |blocks|]; try apply keeps_ret'.
  apply keeps_bind'; [by apply keeps_scan_loop|]. intros n.
  apply keeps_bind'; [|intros; apply keeps_ret'].
  apply keeps_if'; [|apply keeps_ret'].
  apply keeps_modify'. intros. apply Hf.
Qed.

Lemma keeps_ws_receive_scan {X} (proj : server → X) data :
  (∀ f st, proj (set_known_blocks f st) = proj st) →
  (∀ f st, proj (set_blocks_json f st) = proj st) →
  (∀ e p st, proj (add_emitted e p st) = proj st) →
  keeps proj (TurtleControllerWebSocket.receive_scan data).
Proof.
  intros Hk Hf He. unfold TurtleControllerWebSocket.receive_scan.
  destruct data as [| | | |blocks|]; try apply keeps_ret'.
  apply keeps_bind'; [by apply keeps_scan_loop|]. intros n.
  apply keeps_bind'; [|intros; apply keeps_ret'].
  apply keeps_if'; [|apply keeps_ret'].
  apply keeps_bind'; [apply keeps_modify'; intros; apply Hf|]. intros _.
  apply keeps_bind'; [apply keeps_gets'|]. intros total.
  apply keeps_modify'. intros. apply He.
Qed.

(** The commands, statuses and registry handlers, tried on each part. *)
Lemma rest_handlers_keep_status r :
  (∀ data, r ≠ TurtleController.ReceiveStatus data) →
  keeps turtle_status (TurtleController.handle r).
Proof.
  intros Hr. destruct r; simpl; try (by frame).
  - by destruct (Hr data).
  - by apply keeps_receive_scan.
Qed.
End frames.

(** ** Status cache: what an upsert does, on any payload *)

(** [POST /status] either leaves the state as it is (payload refused, or an
    exception before the assignment) or stores the payload under the key
    of its own label. *)
Lemma receive_status_cases data st :
  (TurtleController.receive_status data st).1 = st
  ∨ ∃ label k,
      py_truthy data = true ∧ py_getitem data "label" = Ok label
      ∧ to_key label = Ok k
      ∧ TurtleController.receive_status data st
        = (set_turtle_status (dict_setitem k data) st, Ok status_ok).
Proof.
  unfold TurtleController.receive_status. run.
  destruct (py_truthy data) eqn:Ht; simpl; [|by left].
  destruct (py_contains "label" data) as [[]|]; simpl; [|by left..].
  destruct (py_getitem data "label") as [label|] eqn:Hl; simpl; [|by left].
  destruct (to_key label) as [k|] eqn:Hk; simpl; [|by left].
  right. by exists label, k.
Qed.

Lemma status_inv_setitem data label k st :
  py_truthy data = true → py_getitem data "label" = Ok label →
  to_key label = Ok k →
  status_inv st → status_inv (set_turtle_status (dict_setitem k data) st).
Proof.
  intros Ht Hl Hk [Hwf Hst]. split; simpl.
  - by apply dict_wf_setitem.
  - intros k' v. destruct (decide (k = k')) as [<-|Hne].
    + rewrite dict_get_setitem_eq. intros [= <-]. eauto.
    + rewrite dict_get_setitem_ne by done. apply Hst.
Qed.

Lemma status_inv_ext st st' :
  turtle_status st' = turtle_status st → status_inv st → status_inv st'.
Proof. unfold status_inv. by intros ->. Qed.

Section status.
Context `{PyStr}.

Lemma keeps_load_blocks {X} (proj : server → X) :
  (∀ f st, proj (set_known_blocks f st) = proj st) →
  keeps proj TurtleController.load_blocks.
Proof.
  intros Hf st. unfold TurtleController.load_blocks.
  destruct (blocks_json st) as [| |data]; [done..|]. simpl.
  assert (∀ blocks, keeps proj (TurtleController.load_loop blocks)) as Hloop.
  { induction blocks as [|b blocks IH]; simpl; [apply keeps_ret'|].
    apply keeps_bind'; [apply keeps_lift'|]. intros key.
    apply keeps_bind'; [|by intros]. apply keeps_modify'. intros. apply Hf. }
  apply (keeps_bind' proj (lift (py_iter data))
           TurtleController.load_loop); [apply keeps_lift'|done].
Qed.

Lemma handle_status_inv r st :
  status_inv st → status_inv (TurtleController.handle r st).1.
Proof.
  intros Hst.
  assert ((∃ data, r = TurtleController.ReceiveStatus data)
          ∨ ∀ data, r ≠ TurtleController.ReceiveStatus data) as [[data ->]|Hr]
    by (destruct r; eauto).
  - simpl. destruct (receive_status_cases data st)
      as [->|(label & k & Ht & Hl & Hk & ->)]; [done|].
    by eapply status_inv_setitem.
  - eapply status_inv_ext; [|done]. by apply rest_handlers_keep_status.
Qed.

Lemma reachable_status_inv st : reachable st → status_inv st.
Proof.
  induction 1 as [f|st r _ IH]; [|by apply handle_status_inv].
  eapply status_inv_ext.
  { by apply (keeps_load_blocks turtle_status). }
  split; [apply dict_wf_empty|]. intros k v. unfold dict_get. simpl.
  by rewrite lookup_empty.
Qed.
End status.

Lemma dict_values_length {K V} `{Countable K} (d : pydict K V) :
  dict_wf d → length (dict_values d) = dict_len d.
Proof.
  intros [Hnd Hdom]. unfold dict_values, dict_len.
  assert (length (omap (λ k, d_items d !! k) (d_order d))
          = length (d_order d)) as ->.
  { assert (∀ k, k ∈ d_order d → is_Some (d_items d !! k)) as Hin
      by (intros k; apply Hdom).
    clear Hnd Hdom. induction (d_order d) as [|k ks IH]; [done|]. simpl.
    destruct (Hin k) as [v ->]; [left|]. simpl. f_equal. apply IH.
    intros k' ?. apply Hin. by right. }
  rewrite <-size_dom, <-(size_list_to_set (C:=gset K)) by done.
  f_equal. apply set_eq. intros k.
  by rewrite elem_of_list_to_set, elem_of_dom.
Qed.

Lemma dict_values_elem {K V} `{Countable K} (d : pydict K V) v :
  dict_wf d → v ∈ dict_values d ↔ ∃ k, dict_get k d = Some v.
Proof.
  intros [_ Hdom]. unfold dict_values, dict_get. rewrite list_elem_of_omap.
  split.
  - intros (k & _ & Hk). by exists k.
  - intros (k & Hk). exists k. split; [|done]. apply Hdom. by eexists.
Qed.

Section status_extras.
Context `{PyStr}.

(** X7: On a running server [GET /status/<id>] answers with the stored
    snapshot exactly when one is stored under that id, and with 404
    otherwise; it never changes the state.  (No stored snapshot is ever
    mistaken for a missing one by the truth test of the handler.) *)
Theorem status_found_iff_stored st id :
  reachable st →
  TurtleController.get_status id st
  = (st, Ok match dict_get (KStr id) (turtle_status st) with
            | Some v => jsonify v
            | None => not_found
            end).
Proof.
  intros [_ Hst]%reachable_status_inv.
  destruct (dict_get (KStr id) (turtle_status st)) as [v|] eqn:Hv.
  - apply get_status_found; [done|]. by apply (Hst _ _ Hv).
  - unfold TurtleController.get_status. run. by rewrite Hv.
Qed.

(** X8: On a running server [GET /status/all] lists exactly the stored
    snapshots, one for each id that ever reported, and changes nothing. *)
Theorem status_listing_one_per_id st :
  reachable st →
  ∃ listing,
    TurtleController.get_all_status st = (st, Ok (jsonify (JArr listing)))
    ∧ length listing = size (d_items (turtle_status st))
    ∧ ∀ v, v ∈ listing ↔ ∃ k, dict_get k (turtle_status st) = Some v.
Proof.
  intros [Hwf _]%reachable_status_inv.
  exists (dict_values (turtle_status st)). split_and!; [done| |].
  - by apply dict_values_length.
  - intros v. by apply dict_values_elem.
Qed.

(** X9: A status report never changes what [GET /status/<id>] answers for an
    id other than the one the payload is filed under, whether the report
    is stored, refused or raises. *)
Theorem upsert_leaves_other_ids st data id :
  (∀ label, py_getitem data "label" = Ok label →
            to_key label ≠ Ok (KStr id)) →
  (TurtleController.get_status id
     (TurtleController.receive_status data st).1).2
  = (TurtleController.get_status id st).2.
Proof.
  intros Hother.
  destruct (receive_status_cases data st)
    as [->|(label & k & _ & Hl & Hk & ->)]; [done|].
  unfold TurtleController.get_status. run. unfold dict_get. simpl.
  rewrite lookup_insert_ne.
  - by destruct (py_truthy _).
  - intros ->. by apply (Hother label).
Qed.
End status_extras.

Lemma status_found_iff_stored_witness :
  reachable (H:=example_str) (TurtleController.startup (H:=example_str) Missing)
  ∧ TurtleController.get_status "t1"
      (TurtleController.startup (H:=example_str) Missing)
    = (TurtleController.startup (H:=example_str) Missing, Ok not_found).
Proof.
  split; [constructor|].
  apply (status_found_iff_stored (H:=example_str)). constructor.
Defined.

Lemma status_listing_one_per_id_witness :
  reachable (H:=example_str)
    (TurtleController.handle (H:=example_str)
       (TurtleController.ReceiveStatus (JObj t1_status))
       (TurtleController.startup (H:=example_str) Missing)).1
  ∧ ∃ listing,
      TurtleController.get_all_status
        (TurtleController.handle (H:=example_str)
           (TurtleController.ReceiveStatus (JObj t1_status))
           (TurtleController.startup (H:=example_str) Missing)).1
      = ((TurtleController.handle (H:=example_str)
            (TurtleController.ReceiveStatus (JObj t1_status))
            (TurtleController.startup (H:=example_str) Missing)).1,
         Ok (jsonify (JArr listing)))
      ∧ length listing = 1.
Proof.
  split; [do 2 constructor|].
  destruct (status_listing_one_per_id (H:=example_str) _
              (reachable_handle _ (TurtleController.ReceiveStatus
                                     (JObj t1_status))
                 (reachable_startup Missing)))
    as (listing & Hrun & Hlen & _).
  exists listing. split; [exact Hrun|]. rewrite Hlen. reflexivity.
Defined.

Lemma upsert_leaves_other_ids_witness :
  (∀ label, py_getitem (JObj t1_status) "label" = Ok label →
            to_key label ≠ Ok (KStr "t2"))
  ∧ (TurtleController.get_status "t2"
       (TurtleController.receive_status (JObj t1_status)
          (initial Missing)).1).2
    = Ok not_found.
Proof.
  assert (∀ label, py_getitem (JObj t1_status) "label" = Ok label →
                   to_key label ≠ Ok (KStr "t2")) as Hother.
  { intros label [= <-]. discriminate. }
  split; [exact Hother|].
  rewrite (upsert_leaves_other_ids (initial Missing) (JObj t1_status) "t2"
             Hother).
  reflexivity.
Defined.

(** ** Blocks: which record wins, and what reaches the file *)

Section block_extras.
Context `{PyStr}.

Lemma scan_loop_app pre rest n st :
  TurtleController.scan_loop (pre ++ rest) n st
  = match TurtleController.scan_loop pre n st with
    | (st1, Ok m) => TurtleController.scan_loop rest m st1
    | (st1, Raise e) => (st1, Raise e)
    end.
Proof.
  revert n st. induction pre as [|b pre IH]; intros n st.
  { simpl. by destruct (TurtleController.scan_loop rest n st). }
  rewrite <-app_comm_cons. destruct (block_key b) as [key|e] eqn:Hk.
  - rewrite !(scan_loop_cons _ _ _ _ _ Hk).
    destruct (dict_contains key (known_blocks st)); apply IH.
  - by rewrite !(scan_loop_raise _ _ _ _ _ Hk).
Qed.

(** X10: First report wins: a block whose coordinate key is neither known nor
    carried by an earlier block of the batch is the record stored for that
    key, whatever follows it in the batch. *)
Theorem report_first_record_wins st pre kpre block key post :
  Forall2 (λ b k, block_key b = Ok k) pre kpre →
  block_key block = Ok key →
  key ∉ kpre → key ∉ known_keys st →
  dict_get key
    (known_blocks
       (TurtleController.receive_scan (JArr (pre ++ block :: post)) st).1)
  = Some block.
Proof.
  intros Hpre Hkey Hnew Hunknown. rewrite receive_scan_blocks.
  rewrite scan_loop_app.
  destruct (scan_loop_count pre kpre 0 st Hpre) as (kb' & -> & Hdom).
  assert (dict_contains key kb' = false) as Hc.
  { apply dict_contains_not_dom. rewrite Hdom. set_solver. }
  rewrite (scan_loop_cons _ _ _ _ _ Hkey). simpl. rewrite Hc.
  apply scan_loop_grows. simpl. apply dict_get_setitem_eq.
Qed.

Lemma load_loop_cons block rest key st :
  block_key block = Ok key →
  TurtleController.load_loop (block :: rest) st
  = TurtleController.load_loop rest
      (set_known_blocks (dict_setitem key block) st).
Proof. intros Hk. simpl. unfold bind at 1, lift. by rewrite Hk. Qed.

Lemma load_loop_raise block rest e st :
  block_key block = Raise e →
  TurtleController.load_loop (block :: rest) st = (st, Raise e).
Proof. intros Hk. simpl. unfold bind at 1, lift. by rewrite Hk. Qed.

Lemma load_loop_app pre kpre rest st :
  Forall2 (λ b k, block_key b = Ok k) pre kpre →
  TurtleController.load_loop (pre ++ rest) st
  = TurtleController.load_loop rest (TurtleController.load_loop pre st).1.
Proof.
  intros Hpre. revert st.
  induction Hpre as [|b k pre kpre Hk _ IH]; intros st; [done|].
  rewrite <-app_comm_cons, !(load_loop_cons _ _ _ _ Hk). apply IH.
Qed.

Lemma load_loop_other blocks keys key st :
  Forall2 (λ b k, block_key b = Ok k) blocks keys → key ∉ keys →
  dict_get key (known_blocks (TurtleController.load_loop blocks st).1)
  = dict_get key (known_blocks st).
Proof.
  intros Hblocks. revert st.
  induction Hblocks as [|b k blocks keys Hk _ IH]; intros st Hkey; [done|].
  rewrite (load_loop_cons _ _ _ _ Hk), IH by set_solver. simpl.
  apply dict_get_setitem_ne. set_solver.
Qed.

Lemma startup_stored blocks :
  known_blocks (TurtleController.startup (Stored (JArr blocks)))
  = known_blocks
      (TurtleController.load_loop blocks (initial (Stored (JArr blocks)))).1.
Proof. done. Qed.

(** X11: Last record wins at start-up: of the records of [blocks.json] with one
    coordinate key, the index gets the last. *)
Theorem load_last_record_wins pre kpre block key post kpost :
  Forall2 (λ b k, block_key b = Ok k) pre kpre →
  block_key block = Ok key →
  Forall2 (λ b k, block_key b = Ok k) post kpost →
  key ∉ kpost →
  dict_get key
    (known_blocks
       (TurtleController.startup (Stored (JArr (pre ++ block :: post)))))
  = Some block.
Proof.
  intros Hpre Hkey Hpost Hlast. rewrite startup_stored.
  rewrite (load_loop_app pre kpre), (load_loop_cons _ _ _ _ Hkey) by done.
  rewrite (load_loop_other post kpost) by done. simpl.
  apply dict_get_setitem_eq.
Qed.

(** X12: [load_blocks] reads the file up to the first record without a
    coordinate key; the exception is caught, and that record and
    everything after it are dropped. *)
Theorem load_stops_at_first_bad_record good kgood bad e rest :
  Forall2 (λ b k, block_key b = Ok k) good kgood →
  block_key bad = Raise e →
  known_blocks
    (TurtleController.startup (Stored (JArr (good ++ bad :: rest))))
  = known_blocks (TurtleController.startup (Stored (JArr good))).
Proof.
  intros Hgood Hbad. rewrite !startup_stored.
  rewrite (load_loop_app good kgood), (load_loop_raise _ _ _ _ Hbad) by done.
  simpl. clear Hbad. generalize (Stored (JArr (good ++ bad :: rest))).
  generalize (Stored (JArr good)). intros f1 f2.
  assert (∀ st1 st2, known_blocks st1 = known_blocks st2 →
    known_blocks (TurtleController.load_loop good st1).1
    = known_blocks (TurtleController.load_loop good st2).1) as Hsame.
  { clear. induction good as [|b good IH]; intros st1 st2 Hst; [done|].
    destruct (block_key b) as [k|e] eqn:Hk.
    - rewrite !(load_loop_cons _ _ _ _ Hk). apply IH. simpl. by rewrite Hst.
    - by rewrite !(load_loop_raise _ _ _ _ Hk). }
  by apply Hsame.
Qed.
End block_extras.

Section persistence.
Context `{PyStr}.

(** Loading the listing of an index, key by key in listing order, rebuilds
    that index: [acc] is what has been rebuilt so far. *)
Lemma load_listing (m : gmap string json) done_keys todo st :
  (∀ k, k ∈ todo → ∃ b, m !! k = Some b ∧ block_key b = Ok k) →
  NoDup (done_keys ++ todo) →
  d_order (known_blocks st) = done_keys →
  (∀ k, d_items (known_blocks st) !! k
        = if decide (k ∈ done_keys) then m !! k else None) →
  let st' := (TurtleController.load_loop (omap (λ k, m !! k) todo) st).1 in
  d_order (known_blocks st') = done_keys ++ todo
  ∧ ∀ k, d_items (known_blocks st') !! k
         = if decide (k ∈ done_keys ++ todo) then m !! k else None.
Proof.
  revert done_keys st. induction todo as [|k todo IH];
    intros done_keys st Htodo Hnd Horder Hitems.
  { simpl. by rewrite app_nil_r. }
  destruct (Htodo k) as (b & Hb & Hk); [left|].
  assert (omap (λ k, m !! k) (k :: todo) = b :: omap (λ k, m !! k) todo)
    as -> by (simpl; by rewrite Hb).
  intros st'. subst st'. rewrite (load_loop_cons _ _ _ _ Hk).
  apply NoDup_app in Hnd as (Hnd1 & Hdisj & Hnd2).
  assert (k ∉ done_keys) as Hfresh by (intros ?; eapply Hdisj; [done|left]).
  assert (dict_contains k (known_blocks st) = false) as Hc.
  { apply dict_contains_not_dom, not_elem_of_dom. rewrite Hitems.
    by rewrite decide_False. }
  specialize (IH (done_keys ++ [k])
                (set_known_blocks (dict_setitem k b) st)).
  rewrite <-!(assoc_L (++)) in IH. simpl in IH. apply IH.
  - intros k' ?. apply Htodo. by right.
  - apply NoDup_app. split_and!; [done| |done].
    intros k' Hk' Hin. apply (Hdisj k' Hk'). done.
  - by rewrite Hc, Horder.
  - intros k'. destruct (decide (k' = k)) as [->|Hne].
    + rewrite lookup_insert_eq, decide_True by set_solver. done.
    + rewrite lookup_insert_ne, Hitems by done.
      destruct (decide (k' ∈ done_keys)).
      * by rewrite decide_True by set_solver.
      * by rewrite decide_False by set_solver.
Qed.

(** X13: Round trip through the file: when the index is in order, writing it
    with [save_blocks] and starting the server again from that file gives
    the same index, entries and listing order alike. *)
Theorem save_then_load_restores_index st :
  block_index_inv st →
  known_blocks
    (TurtleController.startup
       (blocks_json (TurtleController.save_blocks st).1))
  = known_blocks st.
Proof.
  intros [[Hnd Hdom] Hco]. unfold TurtleController.save_blocks, modify.
  simpl. rewrite startup_stored. unfold dict_values.
  set (st0 := initial _).
  assert (let st' := (TurtleController.load_loop
                        (omap (λ k, d_items (known_blocks st) !! k)
                           (d_order (known_blocks st))) st0).1 in
          d_order (known_blocks st') = [] ++ d_order (known_blocks st)
          ∧ ∀ k, d_items (known_blocks st') !! k
                 = if decide (k ∈ [] ++ d_order (known_blocks st))
                   then d_items (known_blocks st) !! k else None)
    as [Horder Hitems].
  { apply load_listing.
    - intros k [b Hb]%Hdom. exists b. split; [done|]. by apply Hco.
    - done.
    - done.
    - intros k. simpl. by rewrite lookup_empty. }
  simpl in *.
  destruct (known_blocks (TurtleController.load_loop _ _).1) as [m' o'].
  destruct (known_blocks st) as [m o]. simpl in *. f_equal; [|done].
  apply map_eq. intros k. rewrite Hitems. case_decide as Hk; [done|].
  symmetry. apply eq_None_not_Some. by rewrite <-Hdom.
Qed.

Lemma scan_loop_new_only data n st :
  match TurtleController.scan_loop data n st with
  | (st', Ok m) => n ≤ m ∧ (m = n → st' = st)
  | (_, Raise _) => True
  end.
Proof.
  revert n st. induction data as [|b data IH]; intros n st; [done|].
  destruct (block_key b) as [key|e] eqn:Hk.
  - rewrite (scan_loop_cons _ _ _ _ _ Hk).
    destruct (dict_contains key (known_blocks st)); [apply IH|].
    specialize (IH (S n) (set_known_blocks (dict_setitem key b) st)).
    destruct (TurtleController.scan_loop data (S n) _) as [st' [m|]];
      [|done].
    destruct IH. split; lia.
  - by rewrite (scan_loop_raise _ _ _ _ _ Hk).
Qed.

Lemma receive_scan_raises blocks st st1 e :
  TurtleController.scan_loop blocks 0 st = (st1, Raise e) →
  TurtleController.receive_scan (JArr blocks) st = (st1, Raise e).
Proof.
  intros Hrun. unfold TurtleController.receive_scan. unfold bind at 1.
  by rewrite Hrun.
Qed.

(** X14: The file is written exactly when a report runs to its end with at
    least one new block, and then holds the whole listing of the index; a
    report with no new block changes nothing at all, and a report that
    raises leaves the file as it was. *)
Theorem report_writes_file_when_new blocks st :
  let out := TurtleController.receive_scan (JArr blocks) st in
  match out.2 with
  | Ok r =>
      ∃ n, r = scan_ok n
           ∧ if decide (n = 0) then out.1 = st
             else blocks_json out.1
                  = Stored (JArr (dict_values (known_blocks out.1)))
  | Raise _ => blocks_json out.1 = blocks_json st
  end.
Proof.
  cbv zeta. pose proof (scan_loop_new_only blocks 0 st) as Hloop.
  destruct (TurtleController.scan_loop blocks 0 st) as [st1 [n|e]] eqn:Hrun.
  - rewrite (receive_scan_run _ _ _ _ Hrun). simpl. exists n.
    split; [done|]. destruct Hloop as [_ Hsame].
    destruct (decide (n = 0)) as [->|Hn].
    + rewrite bool_decide_false by lia. by apply Hsame.
    + rewrite bool_decide_true by lia. done.
  - rewrite (receive_scan_raises _ _ _ _ Hrun).
    simpl. pose proof (keeps_scan_loop blocks_json blocks 0) as Hkeep.
    specialize (Hkeep ltac:(done) st). rewrite Hrun in Hkeep. exact Hkeep.
Qed.
End persistence.

(** ** The WebSocket server against the plain one *)

Section two_servers.
Context `{PyStr}.

Lemma queue_commands_unfold kvs st :
  let label := default JNull (obj_lookup "label" kvs) in
  let cmds := default (JArr []) (obj_lookup "commands" kvs) in
  TurtleController.queue_commands (JObj kvs) st
  = if py_truthy label
    then match commands_extend label cmds st with
         | (st1, Ok _) => (st1, Ok queued)
         | (st1, Raise e) => (st1, Raise e)
         end
    else (st, Ok (Response 400 (JObj [("status", JStr "error");
                                      ("message", JStr "Kein Label angegeben")]))).
Proof.
  cbv zeta. unfold TurtleController.queue_commands. unfold bind at 1 2.
  simpl. destruct (py_truthy _); [|done]. unfold bind at 1.
  by destruct (commands_extend _ _ st) as [st1 [[]|e]].
Qed.

Lemma ws_queue_commands_unfold kvs st :
  let label := default JNull (obj_lookup "label" kvs) in
  let cmds := default (JArr []) (obj_lookup "commands" kvs) in
  TurtleControllerWebSocket.queue_commands (JObj kvs) st
  = if py_truthy label
    then match commands_extend label cmds st with
         | (st1, Ok _) =>
             (add_emitted ("commands_" +:+ py_str label)
                (JObj [("commands", cmds)]) st1, Ok queued)
         | (st1, Raise e) => (st1, Raise e)
         end
    else (st, Ok (Response 400 (JObj [("status", JStr "error");
                                      ("message", JStr "Kein Label angegeben")]))).
Proof.
  cbv zeta. unfold TurtleControllerWebSocket.queue_commands.
  unfold bind at 1 2. simpl. destruct (py_truthy _); [|done].
  unfold bind at 1. by destruct (commands_extend _ _ st) as [st1 [[]|e]].
Qed.

(** X15: The REST routes of the WebSocket server store and answer exactly as
    those of the plain server, on every payload; on top of that an
    accepted status report is broadcast once, as stored, and an accepted
    enqueue is announced once on the channel of its label. *)
Theorem ws_routes_extend_rest st :
  (∀ data,
     let r := TurtleController.receive_status data st in
     TurtleControllerWebSocket.receive_status data st
     = (if accepted r.2 then add_emitted "status_update" data r.1 else r.1,
        r.2))
  ∧ (∀ kvs,
       let r := TurtleController.queue_commands (JObj kvs) st in
       TurtleControllerWebSocket.queue_commands (JObj kvs) st
       = (if accepted r.2
          then add_emitted
                 ("commands_"
                  +:+ py_str (default JNull (obj_lookup "label" kvs)))
                 (JObj [("commands",
                         default (JArr []) (obj_lookup "commands" kvs))])
                 r.1
          else r.1,
          r.2)).
Proof.
  split.
  - intros data. unfold TurtleController.receive_status,
      TurtleControllerWebSocket.receive_status,
      TurtleControllerWebSocket.emit. run.
    destruct (py_truthy data); simpl; [|done].
    destruct (py_contains "label" data) as [[]|]; simpl; [|done..].
    destruct (py_getitem data "label") as [label|]; simpl; [|done].
    by destruct (to_key label).
  - intros kvs. cbv zeta.
    rewrite queue_commands_unfold, ws_queue_commands_unfold. cbv zeta.
    destruct (py_truthy _); [|done].
    by destruct (commands_extend _ _ st) as [st1 [[]|e]].
Qed.

Lemma ws_receive_scan_run blocks st st1 n :
  TurtleController.scan_loop blocks 0 st = (st1, Ok n) →
  TurtleControllerWebSocket.receive_scan (JArr blocks) st
  = (if bool_decide (0 < n)
     then add_emitted (blocks_update n (dict_len (known_blocks st1))).1
            (blocks_update n (dict_len (known_blocks st1))).2
            (set_blocks_json
               (Stored (JArr (dict_values (known_blocks st1)))) st1)
     else st1, Ok (scan_ok n)).
Proof.
  intros Hloop. unfold TurtleControllerWebSocket.receive_scan.
  unfold bind at 1. rewrite Hloop.
  unfold TurtleControllerWebSocket.save_blocks, TurtleController.save_blocks,
    TurtleControllerWebSocket.emit.
  case_bool_decide; by run.
Qed.

Lemma ws_receive_scan_raises blocks st st1 e :
  TurtleController.scan_loop blocks 0 st = (st1, Raise e) →
  TurtleControllerWebSocket.receive_scan (JArr blocks) st = (st1, Raise e).
Proof.
  intros Hrun. unfold TurtleControllerWebSocket.receive_scan.
  unfold bind at 1. by rewrite Hrun.
Qed.

(** X16: [POST /report] on the WebSocket server: same index, same file, same
    answer as on the plain server; one [blocks_update] event, carrying the
    number of new blocks and the size of the index, exactly when the
    report ran to its end with a new block; no event otherwise. *)
Theorem ws_report_extends_rest blocks st :
  let r := TurtleController.receive_scan (JArr blocks) st in
  let w := TurtleControllerWebSocket.receive_scan (JArr blocks) st in
  w.2 = r.2
  ∧ match r.2 with
    | Ok resp =>
        ∃ n, resp = scan_ok n
             ∧ w.1 = if decide (n = 0) then r.1
                     else add_emitted
                            (blocks_update n (dict_len (known_blocks r.1))).1
                            (blocks_update n (dict_len (known_blocks r.1))).2
                            r.1
    | Raise _ => w.1 = r.1
    end.
Proof.
  cbv zeta.
  destruct (TurtleController.scan_loop blocks 0 st) as [st1 [n|e]] eqn:Hrun.
  - rewrite (receive_scan_run _ _ _ _ Hrun), (ws_receive_scan_run _ _ _ _ Hrun).
    simpl. split; [done|]. exists n. split; [done|].
    destruct (decide (n = 0)) as [->|Hn].
    + by rewrite !bool_decide_false by lia.
    + by rewrite !bool_decide_true by lia.
  - by rewrite (receive_scan_raises _ _ _ _ Hrun),
      (ws_receive_scan_raises _ _ _ _ Hrun).
Qed.
End two_servers.

(** ** The WebSocket server: block index and client registry *)

Lemma dict_wf_delitem {K V} `{Countable K} (k : K) (d : pydict K V) :
  dict_wf d → dict_wf (dict_delitem k d).
Proof.
  intros [Hnd Hdom]. split; simpl.
  - by apply NoDup_filter.
  - intros k'. rewrite list_elem_of_filter, Hdom.
    destruct (decide (k' = k)) as [->|Hne].
    + rewrite lookup_delete_eq. split; [by intros [??]|by intros [??]].
    + rewrite lookup_delete_ne by done. naive_solver.
Qed.

Lemma filter_keeps_all {A} (P : A → Prop) `{∀ x, Decision (P x)}
    (l : list A) :
  (∀ x, x ∈ l → P x) → filter P l = l.
Proof.
  induction l as [|x l IH]; intros Hl; [done|].
  rewrite filter_cons_True by (apply Hl; left). f_equal. apply IH.
  intros y ?. apply Hl. by right.
Qed.

Lemma dict_delitem_setitem {K V} `{Countable K} (k : K) (v : V) d :
  dict_wf d → dict_contains k d = false →
  dict_delitem k (dict_setitem k v d) = d.
Proof.
  intros [Hnd Hdom] Hc. unfold dict_delitem, dict_setitem. rewrite Hc.
  apply dict_contains_not_dom, not_elem_of_dom in Hc.
  destruct d as [m o]. simpl in *. f_equal.
  - by rewrite delete_insert_eq, delete_id.
  - rewrite filter_app, filter_cons_False, filter_nil, app_nil_r
      by naive_solver.
    apply filter_keeps_all.
    intros k' Hk' ->. apply Hdom in Hk' as [??]. congruence.
Qed.



Section ws_server.
Context `{PyStr} {sio : SocketLayer}.

Lemma ws_receive_scan_blocks data st :
  known_blocks (TurtleControllerWebSocket.receive_scan data st).1
  = known_blocks (TurtleController.receive_scan data st).1.
Proof.
  destruct data as [| | | |blocks|]; try done.
  destruct (TurtleController.scan_loop blocks 0 st) as [st1 [n|e]] eqn:Hrun.
  - rewrite (receive_scan_run _ _ _ _ Hrun), (ws_receive_scan_run _ _ _ _ Hrun).
    by case_bool_decide.
  - by rewrite (receive_scan_raises _ _ _ _ Hrun),
      (ws_receive_scan_raises _ _ _ _ Hrun).
Qed.

Lemma ws_handle_blocks r st :
  known_blocks (TurtleControllerWebSocket.handle r st).1 = known_blocks st
  ∨ ∃ data,
      known_blocks (TurtleControllerWebSocket.handle r st).1
      = known_blocks (TurtleController.receive_scan data st).1.
Proof.
  assert (∀ (m : handler TurtleControllerWebSocket.answer),
            keeps known_blocks m → known_blocks (m st).1 = known_blocks st)
    as Hkeeps by (intros m Hm; apply Hm).
  destruct r; cbn [TurtleControllerWebSocket.handle];
    try (left; apply Hkeeps; by frame).
  right. exists data. rewrite <-ws_receive_scan_blocks.
  unfold TurtleControllerWebSocket.respond, bind.
  by destruct (TurtleControllerWebSocket.receive_scan data st) as [? []].
Qed.
End ws_server.

Section ws_invariants.
Context `{PyStr} {sio : SocketLayer}.

Lemma ws_handle_grows r st :
  (block_index_inv st →
   block_index_inv (TurtleControllerWebSocket.handle r st).1)
  ∧ (∀ k b, dict_get k (known_blocks st) = Some b →
       dict_get k (known_blocks (TurtleControllerWebSocket.handle r st).1)
       = Some b).
Proof.
  destruct (ws_handle_blocks r st) as [Hsame|[data Hscan]].
  - split; [by apply block_index_inv_ext|]. intros k b. by rewrite Hsame.
  - destruct (handle_grows (TurtleController.ReceiveScan data) st)
      as [Hinv Hget]. simpl in Hinv, Hget. split.
    + intros Hst. eapply block_index_inv_ext; [exact Hscan|]. by apply Hinv.
    + intros k b Hkb. rewrite Hscan. by apply Hget.
Qed.

Lemma ws_reachable_inv st : ws_reachable st → block_index_inv st.
Proof.
  induction 1 as [f|st r _ IH]; [apply startup_inv|].
  by apply ws_handle_grows.
Qed.

(** X17: The block index of the WebSocket server obeys the same rules as that
    of the plain server: start-up and every event or request keep each
    block under the key of its own coordinates, the listing has one block
    per coordinate key, and a stored record is never replaced or dropped. *)
Theorem ws_index_keeps_first_record st :
  ws_reachable st →
  (∀ k b, dict_get k (known_blocks st) = Some b → block_key b = Ok k)
  ∧ NoDup (block_key <$> dict_values (known_blocks st))
  ∧ ∀ rs k b,
      dict_get k (known_blocks st) = Some b →
      dict_get k (known_blocks (ws_serve rs st)) = Some b.
Proof.
  intros Hst. pose proof (ws_reachable_inv st Hst) as Hinv. split_and!.
  - apply Hinv.
  - by apply listing_nodup.
  - intros rs. clear Hst Hinv. revert st.
    induction rs as [|r rs IH]; intros st k b Hkb; [done|].
    simpl. by apply IH, ws_handle_grows.
Qed.

Lemma ws_handle_clients r st :
  dict_wf (connected_clients st) →
  dict_wf (connected_clients (TurtleControllerWebSocket.handle r st).1).
Proof.
  intros Hwf.
  assert (∀ (m : handler TurtleControllerWebSocket.answer),
            keeps connected_clients m →
            dict_wf (connected_clients (m st).1)) as Hkeeps.
  { intros m Hm. by rewrite Hm. }
  destruct r; cbn [TurtleControllerWebSocket.handle];
    try (apply Hkeeps; by frame).
  - simpl. by apply dict_wf_setitem.
  - unfold TurtleControllerWebSocket.acknowledge,
      TurtleControllerWebSocket.handle_disconnect. run.
    destruct (dict_contains sid (connected_clients st)); simpl; [|done].
    by apply dict_wf_delitem.
  - unfold TurtleControllerWebSocket.acknowledge,
      TurtleControllerWebSocket.handle_register,
      TurtleControllerWebSocket.emit. run.
    destruct (py_get data "type" _); simpl; [|done].
    destruct (py_get data "id" _); simpl; [|done].
    by apply dict_wf_setitem.
  - apply Hkeeps. unfold TurtleControllerWebSocket.respond.
    apply keeps_bind'; [|by frame]. by apply keeps_ws_receive_scan.
Qed.

Lemma ws_reachable_clients st :
  ws_reachable st → dict_wf (connected_clients st).
Proof.
  induction 1 as [f|st r _ IH]; [|by apply ws_handle_clients].
  unfold TurtleControllerWebSocket.startup,
    TurtleControllerWebSocket.load_blocks.
  rewrite (keeps_load_blocks connected_clients) by done.
  apply dict_wf_empty.
Qed.


(** X19: A client that connects and disconnects leaves no trace: on a running
    server, for a session id that was not connected, the state after the
    pair of events is the state before. *)
Theorem connect_then_disconnect_restores st sid now :
  ws_reachable st →
  dict_get sid (connected_clients st) = None →
  TurtleControllerWebSocket.handle_disconnect sid
    (TurtleControllerWebSocket.handle_connect sid now st).1
  = (st, Ok JNull).
Proof.
  intros Hwf%ws_reachable_clients Hsid.
  assert (dict_contains sid (connected_clients st) = false) as Hc
    by by apply dict_contains_not_dom, not_elem_of_dom.
  unfold TurtleControllerWebSocket.handle_disconnect,
    TurtleControllerWebSocket.handle_connect. run.
  unfold dict_contains at 1. simpl. rewrite lookup_insert_eq.
  rewrite bool_decide_true by by eexists. simpl. f_equal.
  destruct st. unfold set_connected_clients. simpl in *. f_equal.
  by apply dict_delitem_setitem.
Qed.

(** X20: A disconnect never raises, removes the session id from the registry
    and leaves every other client's entry as it was; for a session id
    that is not connected it changes nothing. *)
Theorem disconnect_forgets_client st sid :
  let out := TurtleControllerWebSocket.handle_disconnect sid st in
  out.2 = Ok JNull
  ∧ dict_get sid (connected_clients out.1) = None
  ∧ (∀ sid', sid' ≠ sid →
       dict_get sid' (connected_clients out.1)
       = dict_get sid' (connected_clients st))
  ∧ (dict_get sid (connected_clients st) = None → out.1 = st).
Proof.
  unfold TurtleControllerWebSocket.handle_disconnect. run.
  destruct (dict_contains sid (connected_clients st)) eqn:Hc; simpl.
  - split_and!; [done|apply lookup_delete_eq| |].
    + intros sid' Hne. by apply lookup_delete_ne.
    + intros Hnone. apply dict_contains_dom, elem_of_dom in Hc as [??].
      unfold dict_get in Hnone. congruence.
  - apply dict_contains_not_dom, not_elem_of_dom in Hc. by split_and!.
Qed.
End ws_invariants.

(** ** [POST /command]: a command nobody reads *)

Lemma ignores_ret {A} (a : A) : ignores_command (ret a).
Proof. done. Qed.
Lemma ignores_lift {A} (r : result A) : ignores_command (lift r).
Proof. done. Qed.
Lemma ignores_gets {A} (f : server → A) :
  (∀ v st, f (set_current_command v st) = f st) → ignores_command (gets f).
Proof. intros Hf v st. unfold gets. simpl. by rewrite Hf. Qed.
Lemma ignores_modify f :
  (∀ v st, f (set_current_command v st) = set_current_command v (f st)) →
  ignores_command (modify f).
Proof. intros Hf v st. unfold modify. simpl. by rewrite Hf. Qed.
Lemma ignores_bind {A B} (m : handler A) (f : A → handler B) :
  ignores_command m → (∀ a, ignores_command (f a)) →
  ignores_command (bind m f).
Proof.
  intros Hm Hf v st. unfold bind. rewrite Hm.
  destruct (m st) as [st1 [a|e]]; simpl; [|done]. by rewrite Hf.
Qed.
Lemma ignores_if {A} (c : bool) (m1 m2 : handler A) :
  ignores_command m1 → ignores_command m2 →
  ignores_command (if c then m1 else m2).
Proof. by destruct c. Qed.
Lemma ignores_and_then a b :
  ignores_command a → ignores_command b → ignores_command (a &&& b).
Proof.
  intros. apply ignores_bind; [done|]. intros []; [done|apply ignores_ret].
Qed.
Lemma ignores_or_else a b :
  ignores_command a → ignores_command b → ignores_command (a ||| b).
Proof.
  intros. apply ignores_bind; [done|]. intros []; [apply ignores_ret|done].
Qed.
Lemma ignores_list_match {A B} (q : list A) (m1 : handler B)
    (m2 : A → list A → handler B) :
  ignores_command m1 → (∀ a q', ignores_command (m2 a q')) →
  ignores_command (match q with [] => m1 | a :: q' => m2 a q' end).
Proof. by destruct q. Qed.
Lemma ignores_commands_getitem label :
  ignores_command (commands_getitem label).
Proof.
  unfold commands_getitem. apply ignores_bind; [apply ignores_lift|].
  intros k v st. simpl. by destruct (commands st !! k).
Qed.

Create HintDb ignores discriminated.
#[global] Hint Resolve ignores_ret ignores_lift ignores_bind ignores_if
  ignores_and_then ignores_or_else ignores_list_match
  ignores_commands_getitem : ignores.
#[global] Hint Extern 1 (ignores_command (gets _)) =>
  apply ignores_gets; intros; reflexivity : ignores.
#[global] Hint Extern 1 (ignores_command (modify _)) =>
  apply ignores_modify; intros; reflexivity : ignores.

Section write_only.
Context `{PyStr}.

Lemma ignores_scan_loop data n :
  ignores_command (TurtleController.scan_loop data n).
Proof.
  revert n. induction data as [|block rest IH]; intros n; simpl;
    auto 10 with ignores.
Qed.

Lemma ignores_handle r :
  (∀ data, r ≠ TurtleController.SetCommand data) →
  ignores_command (TurtleController.handle r).
Proof.
  intros Hr. pose proof ignores_scan_loop.
  destruct r; cbn [TurtleController.handle];
    try (by destruct (Hr data));
    unfold TurtleController.index, TurtleController.queue_commands,
      TurtleController.get_all_commands, TurtleController.get_next_command,
      TurtleController.receive_status, TurtleController.get_status,
      TurtleController.get_all_status, TurtleController.receive_scan,
      TurtleController.get_scan, TurtleController.save_blocks,
      commands_contains, commands_extend, commands_pop0;
    try destruct data; auto 14 with ignores.
Qed.

(** X21: What [POST /command] stores is read by no route: whatever it holds,
    every request gets the same answer, and every request other than
    [POST /command] itself leaves it in place and otherwise changes the
    state in the same way. *)
Theorem current_command_is_write_only r v st :
  (TurtleController.handle r (set_current_command v st)).2
  = (TurtleController.handle r st).2
  ∧ ((∀ data, r ≠ TurtleController.SetCommand data) →
     (TurtleController.handle r (set_current_command v st)).1
     = set_current_command v (TurtleController.handle r st).1).
Proof.
  assert ((∃ data, r = TurtleController.SetCommand data)
          ∨ ∀ data, r ≠ TurtleController.SetCommand data) as [[data ->]|Hr]
    by (destruct r; eauto).
  - split; [|by intros Hne; destruct (Hne data)].
    simpl. unfold TurtleController.set_command.
    destruct (negb (py_truthy data)); by run.
  - rewrite (ignores_handle r Hr). by split.
Qed.
End write_only.

(** ** Coordinate keys and the size of the listing *)

Section keys.
Context `{PyStr}.

(** X22: Two well-formed block records get the same key only if they have the
    same integer coordinates: the comma-joined decimal rendering loses
    nothing. *)
Theorem well_formed_keys_distinct b1 b2 c1 c2 :
  coordinate b1 = Some c1 → coordinate b2 = Some c2 →
  block_key b1 = block_key b2 → c1 = c2.
Proof.
  intros Hc1 Hc2. rewrite (block_key_coordinate _ _ Hc1),
    (block_key_coordinate _ _ Hc2). intros [= Heq].
  by apply (inj coordinate_key).
Qed.

Lemma scan_loop_keys data n st st' m :
  TurtleController.scan_loop data n st = (st', Ok m) →
  ∃ keys, Forall2 (λ b k, block_key b = Ok k) data keys.
Proof.
  revert n st. induction data as [|b data IH]; intros n st Hrun.
  { exists []. constructor. }
  destruct (block_key b) as [key|e] eqn:Hk.
  - rewrite (scan_loop_cons _ _ _ _ _ Hk) in Hrun.
    destruct (dict_contains key (known_blocks st));
      apply IH in Hrun as [keys Hkeys]; exists (key :: keys);
      by constructor.
  - by rewrite (scan_loop_raise _ _ _ _ _ Hk) in Hrun.
Qed.

(** X23: The number a report answers with is the number of blocks by which the
    listing of [GET /report] grows. *)
Theorem report_count_is_listing_growth blocks st st' n :
  block_index_inv st →
  TurtleController.receive_scan (JArr blocks) st = (st', Ok (scan_ok n)) →
  length (dict_values (known_blocks st'))
  = length (dict_values (known_blocks st)) + n.
Proof.
  intros Hinv Hrun.
  destruct (TurtleController.scan_loop blocks 0 st) as [st1 [m|e]] eqn:Hloop.
  2:{ by rewrite (receive_scan_raises _ _ _ _ Hloop) in Hrun. }
  destruct (scan_loop_keys _ _ _ _ _ Hloop) as [keys Hkeys].
  destruct (scan_loop_count blocks keys 0 st Hkeys) as (kb' & Hcount & Hdom).
  rewrite Hloop in Hcount. injection Hcount as -> ->.
  assert (block_index_inv st') as Hinv'.
  { pose proof (proj1 (handle_grows (TurtleController.ReceiveScan
                                       (JArr blocks)) st) Hinv) as Hst'.
    cbn [TurtleController.handle] in Hst'. by rewrite Hrun in Hst'. }
  rewrite (receive_scan_run _ _ _ _ Hloop) in Hrun.
  injection Hrun as Hst' Hn. apply (inj Z.of_nat) in Hn. subst n.
  rewrite !dict_values_length by (apply Hinv || apply Hinv').
  assert (known_blocks st' = kb') as -> by (subst st'; by case_bool_decide).
  unfold dict_len. rewrite <-!size_dom, Hdom. unfold known_keys. simpl.
  set (D := dom (d_items (known_blocks st))).
  set (X := list_to_set keys : gset string).
  assert (D ∪ X = D ∪ X ∖ D) as ->.
  { apply set_eq. intros x. destruct (decide (x ∈ D)); set_solver. }
  by rewrite size_union by set_solver.
Qed.
End keys.

Section two_transports.
Context `{PyStr}.

(** X24: A command pushed over the WebSocket [command] event lands in the
    queue that [GET /command] drains: it is handed out after what was
    already queued for that label, once. *)
Theorem ws_command_reaches_rest_queue st label cmd :
  label ≠ "" → py_truthy cmd = true →
  let st1 := (TurtleControllerWebSocket.handle_command
                (JObj [("label", JStr label); ("command", cmd)]) st).1 in
  (dequeues (length (queue_of label st ++ [cmd])) label st1).2
  = command_answer <$> (queue_of label st ++ [cmd]).
Proof.
  intros Hl Hcmd. rewrite handle_command_accepts by done. simpl.
  rewrite (dequeues_queue label (queue_of label st ++ [cmd]) []);
    [done|done|].
  rewrite app_nil_r. simpl. apply lookup_insert_eq.
Qed.
End two_transports.

(** ** Worked instances *)

Lemma dequeue_touches_one_queue_witness :
  Some (KStr "t2") ≠ (KStr <$> Some "t1")
  ∧ commands
      (TurtleController.get_next_command (Some "t1")
         (TurtleController.queue_commands
            (enqueue_request "t1" [JStr "dig"]) (initial Missing)).1).1
    !! KStr "t2"
    = None.
Proof.
  split; [discriminate|].
  rewrite (proj1 (proj2 (dequeue_touches_one_queue _ (Some "t1")))
             (KStr "t2")); [reflexivity|discriminate].
Defined.

Lemma ws_command_reaches_rest_queue_witness :
  "t1" ≠ "" ∧ py_truthy (JStr "dig") = true
  ∧ (dequeues 1 "t1"
       (TurtleControllerWebSocket.handle_command (H:=example_str)
          (JObj [("label", JStr "t1"); ("command", JStr "dig")])
          (initial Missing)).1).2
    = [command_answer (JStr "dig")].
Proof.
  split; [discriminate|]. split; [reflexivity|].
  apply (ws_command_reaches_rest_queue (H:=example_str) (initial Missing)
           "t1" (JStr "dig")); [discriminate|reflexivity].
Defined.

Lemma report_first_record_wins_witness :
  block_key (H:=example_str) stone = Ok "1,2,3"
  ∧ ("1,2,3" ∉ ([] : list string))
  ∧ ("1,2,3" ∉ known_keys (initial Missing))
  ∧ dict_get "1,2,3"
      (known_blocks
         (TurtleController.receive_scan (H:=example_str)
            (JArr ([] ++ stone
                   :: [JObj [("x", JNum 1); ("y", JNum 2); ("z", JNum 3);
                             ("type", JStr "dirt")]]))
            (initial Missing)).1)
    = Some stone.
Proof.
  assert ("1,2,3" ∉ ([] : list string)) as Hpre by apply not_elem_of_nil.
  assert ("1,2,3" ∉ known_keys (initial Missing)) as Hnew
    by apply not_elem_of_empty.
  split; [reflexivity|]. split; [exact Hpre|]. split; [exact Hnew|].
  apply (report_first_record_wins (H:=example_str) (initial Missing)
           [] [] stone "1,2,3"); [constructor|reflexivity|exact Hpre|exact Hnew].
Defined.

Lemma load_last_record_wins_witness :
  block_key (H:=example_str) stone = Ok "1,2,3"
  ∧ ("1,2,3" ∉ ([] : list string))
  ∧ dict_get "1,2,3"
      (known_blocks
         (TurtleController.startup (H:=example_str)
            (Stored (JArr ([JObj [("x", JNum 1); ("y", JNum 2);
                                  ("z", JNum 3); ("type", JStr "dirt")]]
                           ++ stone :: [])))))
    = Some stone.
Proof.
  assert ("1,2,3" ∉ ([] : list string)) as Hpost by apply not_elem_of_nil.
  split; [reflexivity|]. split; [exact Hpost|].
  apply (load_last_record_wins (H:=example_str)
           [JObj [("x", JNum 1); ("y", JNum 2); ("z", JNum 3);
                  ("type", JStr "dirt")]] ["1,2,3"] stone "1,2,3" [] []);
    [repeat constructor|reflexivity|constructor|exact Hpost].
Defined.

Lemma load_stops_at_first_bad_record_witness :
  block_key (H:=example_str) (JObj [("x", JNum 5)]) = Raise KeyError
  ∧ known_blocks
      (TurtleController.startup (H:=example_str)
         (Stored (JArr ([stone] ++ JObj [("x", JNum 5)] :: [stone]))))
    = known_blocks
        (TurtleController.startup (H:=example_str) (Stored (JArr [stone]))).
Proof.
  split; [reflexivity|].
  apply (load_stops_at_first_bad_record (H:=example_str) [stone] ["1,2,3"]
           (JObj [("x", JNum 5)]) KeyError [stone]);
    [repeat constructor|reflexivity].
Defined.

Lemma save_then_load_restores_index_witness :
  block_index_inv (H:=example_str)
    (TurtleController.startup (H:=example_str) (Stored (JArr [stone])))
  ∧ known_blocks
      (TurtleController.startup (H:=example_str)
         (blocks_json
            (TurtleController.save_blocks
               (TurtleController.startup (H:=example_str)
                  (Stored (JArr [stone])))).1))
    = known_blocks
        (TurtleController.startup (H:=example_str) (Stored (JArr [stone]))).
Proof.
  split; [apply startup_inv|].
  apply (save_then_load_restores_index (H:=example_str)), startup_inv.
Defined.

Lemma report_count_is_listing_growth_witness :
  block_index_inv (H:=example_str)
    (TurtleController.startup (H:=example_str) Missing)
  ∧ length
      (dict_values
         (known_blocks
            (TurtleController.receive_scan (H:=example_str)
               (JArr [stone; stone])
               (TurtleController.startup (H:=example_str) Missing)).1))
    = 0 + 1.
Proof.
  split; [apply startup_inv|].
  apply (report_count_is_listing_growth (H:=example_str) [stone; stone]
           (TurtleController.startup (H:=example_str) Missing));
    [apply startup_inv|reflexivity].
Defined.

Lemma well_formed_keys_distinct_witness :
  coordinate stone = Some (1, 2, 3)%Z
  ∧ coordinate (JObj [("z", JNum 3); ("y", JNum 2); ("x", JNum 1)])
    = Some (1, 2, 3)%Z
  ∧ block_key (H:=example_str) stone
    = block_key (H:=example_str)
        (JObj [("z", JNum 3); ("y", JNum 2); ("x", JNum 1)])
  ∧ (1, 2, 3)%Z = (1, 2, 3)%Z.
Proof.
  split; [reflexivity|]. split; [reflexivity|]. split; [reflexivity|].
  apply (well_formed_keys_distinct (H:=example_str) stone
           (JObj [("z", JNum 3); ("y", JNum 2); ("x", JNum 1)]));
    reflexivity.
Defined.

Lemma current_command_is_write_only_witness :
  (∀ data, TurtleController.GetNextCommand (Some "t1")
           ≠ TurtleController.SetCommand data)
  ∧ (TurtleController.handle (H:=example_str)
       (TurtleController.GetNextCommand (Some "t1"))
       (set_current_command (JStr "forward") (initial Missing))).1
    = set_current_command (JStr "forward") (initial Missing).
Proof.
  assert (∀ data, TurtleController.GetNextCommand (Some "t1")
                  ≠ TurtleController.SetCommand data) as Hr
    by (intros data; discriminate).
  split; [exact Hr|].
  rewrite (proj2 (current_command_is_write_only (H:=example_str)
                    (TurtleController.GetNextCommand (Some "t1"))
                    (JStr "forward") (initial Missing)) Hr).
  reflexivity.
Defined.

Lemma ws_index_keeps_first_record_witness :
  ws_reachable (H:=example_str) (sio:=strict_socket)
    (TurtleControllerWebSocket.startup (H:=example_str)
       (Stored (JArr [stone])))
  ∧ dict_get "1,2,3"
      (known_blocks
         (ws_serve (H:=example_str) (sio:=strict_socket)
            [TurtleControllerWebSocket.Connect "sid1" "2024-01-01T00:00:00";
             TurtleControllerWebSocket.ReceiveScan (JArr [stone])]
            (TurtleControllerWebSocket.startup (H:=example_str)
               (Stored (JArr [stone])))))
    = Some stone.
Proof.
  split; [constructor|].
  apply (ws_index_keeps_first_record (H:=example_str) (sio:=strict_socket));
    [constructor|].
  reflexivity.
Defined.


Lemma connect_then_disconnect_restores_witness :
  ws_reachable (H:=example_str) (sio:=strict_socket)
    (TurtleControllerWebSocket.startup (H:=example_str) Missing)
  ∧ dict_get "sid1"
      (connected_clients
         (TurtleControllerWebSocket.startup (H:=example_str) Missing))
    = None
  ∧ TurtleControllerWebSocket.handle_disconnect "sid1"
      (TurtleControllerWebSocket.handle_connect "sid1" "2024-01-01T00:00:00"
         (TurtleControllerWebSocket.startup (H:=example_str) Missing)).1
    = (TurtleControllerWebSocket.startup (H:=example_str) Missing, Ok JNull).
Proof.
  split; [constructor|]. split; [reflexivity|].
  apply (connect_then_disconnect_restores (H:=example_str)
           (sio:=strict_socket));
    [constructor|reflexivity].
Defined.

Lemma disconnect_forgets_client_witness :
  dict_get "sid1" (connected_clients (initial Missing)) = None
  ∧ (TurtleControllerWebSocket.handle_disconnect "sid1" (initial Missing)).1
    = initial Missing.
Proof.
  split; [reflexivity|].
  apply (proj2 (proj2 (proj2 (disconnect_forgets_client (initial Missing)
                                "sid1")))). reflexivity.
Defined.
